(** * Telemetry dispatch of prose-app-web: tracking and analytics utilities

    A shallow embedding of [src/utilities/tracking.ts] and of its sibling
    [src/utilities/analytics.ts] (classes [UtilitiesTracking] and
    [UtilitiesAnalytics]), with the properties of their event dispatch:
    opt-out, override and rate-limit gates, the anonymized origin, failure
    absorption and the detached network request. *)

From Stdlib Require Import ZArith String Ascii List Lia Bool.
From stdpp Require Import base gmap strings.
Import ListNotations.

Local Open Scope Z_scope.

(* ===================================================================== *)
(** ** SHA-256 (the [crypto-js/sha256] import)

    [Sha256(identifier).toString()] hashes the UTF-8 bytes of the identifier
    and prints the digest as 64 lowercase hexadecimal digits.  A Rocq
    [string] is a sequence of bytes: it stands for the UTF-8 encoding of the
    JavaScript string. *)

Module Sha256.

Definition mask32 : Z := 0xFFFFFFFF.
Definition add32 (a b : Z) : Z := Z.land (a + b) mask32.
Definition rotr (n x : Z) : Z :=
  Z.land (Z.lor (Z.shiftr x n) (Z.shiftl x (32 - n))) mask32.
Definition shr (n x : Z) : Z := Z.shiftr x n.
Definition not32 (x : Z) : Z := Z.lxor x mask32.

Definition Ch (x y z : Z) : Z := Z.lxor (Z.land x y) (Z.land (not32 x) z).
Definition Maj (x y z : Z) : Z :=
  Z.lxor (Z.lxor (Z.land x y) (Z.land x z)) (Z.land y z).
Definition Sigma0 (x : Z) := Z.lxor (Z.lxor (rotr 2 x) (rotr 13 x)) (rotr 22 x).
Definition Sigma1 (x : Z) := Z.lxor (Z.lxor (rotr 6 x) (rotr 11 x)) (rotr 25 x).
Definition sigma0 (x : Z) := Z.lxor (Z.lxor (rotr 7 x) (rotr 18 x)) (shr 3 x).
Definition sigma1 (x : Z) := Z.lxor (Z.lxor (rotr 17 x) (rotr 19 x)) (shr 10 x).

(** The round constants and the initial words are fractional bits of the
    cube roots and of the square roots of the first primes. *)
Definition primes : list Z :=
  [2; 3; 5; 7; 11; 13; 17; 19; 23; 29; 31; 37; 41; 43; 47; 53; 59; 61; 67; 71;
   73; 79; 83; 89; 97; 101; 103; 107; 109; 113; 127; 131; 137; 139; 149; 151;
   157; 163; 167; 173; 179; 181; 191; 193; 197; 199; 211; 223; 227; 229; 233;
   239; 241; 251; 257; 263; 269; 271; 277; 281; 283; 293; 307; 311].

(** The integer cube root of [n], below [2 ^ bits], found bit by bit. *)
Fixpoint cube_root (bits : nat) (n acc : Z) : Z :=
  match bits with
  | O => acc
  | S b =>
      let candidate := acc + Z.shiftl 1 (Z.of_nat b) in
      cube_root b n
        (if candidate * candidate * candidate <=? n then candidate else acc)
  end.

Definition cube_root_bits (p : Z) : Z :=
  Z.land (cube_root 36 (Z.shiftl p 96) 0) mask32.

Definition square_root_bits (p : Z) : Z :=
  Z.land (Z.sqrt (Z.shiftl p 64)) mask32.

Definition K : list Z := Eval vm_compute in map cube_root_bits primes.

(** The eight working words. *)
Record digest : Type := Digest
  { h0 : Z; h1 : Z; h2 : Z; h3 : Z; h4 : Z; h5 : Z; h6 : Z; h7 : Z }.

Definition initial : digest :=
  Eval vm_compute in
    match map square_root_bits (firstn 8 primes) with
    | [a; b; c; d; e; f; g; h] => Digest a b c d e f g h
    | _ => Digest 0 0 0 0 0 0 0 0
    end.

Definition bytes_of_string (s : string) : list Z :=
  map (fun c => Z.of_N (N_of_ascii c)) (list_ascii_of_string s).

(** Big-endian bytes of [x], [n] of them. *)
Fixpoint be_bytes (n : nat) (x : Z) : list Z :=
  match n with
  | O => []
  | S n' => Z.land (Z.shiftr x (8 * Z.of_nat n')) 0xFF :: be_bytes n' x
  end.

Definition pad (msg : list Z) : list Z :=
  let len := Z.of_nat (List.length msg) in
  msg ++ [0x80] ++ repeat 0 (Z.to_nat ((55 - len) mod 64))
      ++ be_bytes 8 (8 * len).

Fixpoint be_words (fuel : nat) (bs : list Z) : list Z :=
  match fuel, bs with
  | S f, a :: b :: c :: d :: rest =>
      Z.lor (Z.lor (Z.lor (Z.shiftl a 24) (Z.shiftl b 16)) (Z.shiftl c 8)) d
      :: be_words f rest
  | _, _ => []
  end.

Fixpoint blocks (fuel : nat) (bs : list Z) : list (list Z) :=
  match fuel, bs with
  | S f, _ :: _ => be_words 16 (firstn 64 bs) :: blocks f (skipn 64 bs)
  | _, _ => []
  end.

(** Message schedule, most recent word first. *)
Fixpoint extend (n : nat) (rev_w : list Z) : list Z :=
  match n with
  | O => rev_w
  | S n' =>
      let w := add32 (add32 (sigma1 (nth 1 rev_w 0)) (nth 6 rev_w 0))
                     (add32 (sigma0 (nth 14 rev_w 0)) (nth 15 rev_w 0)) in
      extend n' (w :: rev_w)
  end.

Definition schedule (block : list Z) : list Z := rev (extend 48 (rev block)).

Definition round (s : digest) (kw : Z * Z) : digest :=
  let '(Digest a b c d e f g h) := s in
  let t1 := add32 (add32 (add32 h (Sigma1 e)) (add32 (Ch e f g) (fst kw)))
                  (snd kw) in
  let t2 := add32 (Sigma0 a) (Maj a b c) in
  Digest (add32 t1 t2) a b c (add32 d t1) e f g.

Definition compress (s : digest) (block : list Z) : digest :=
  let '(Digest a b c d e f g h) :=
    fold_left round (combine K (schedule block)) s in
  Digest (add32 (h0 s) a) (add32 (h1 s) b) (add32 (h2 s) c) (add32 (h3 s) d)
         (add32 (h4 s) e) (add32 (h5 s) f) (add32 (h6 s) g) (add32 (h7 s) h).

Definition hash (msg : list Z) : digest :=
  let padded := pad msg in
  fold_left compress (blocks (List.length padded) padded) initial.

Definition hex_digit (x : Z) : ascii :=
  nth (Z.to_nat x) (list_ascii_of_string "0123456789abcdef") "0"%char.

Definition hex_word (w : Z) : list ascii :=
  map (fun sh => hex_digit (Z.land (Z.shiftr w sh) 0xF))
      [28; 24; 20; 16; 12; 8; 4; 0].

Definition hex_digest (d : digest) : list ascii :=
  hex_word (h0 d) ++ hex_word (h1 d) ++ hex_word (h2 d) ++ hex_word (h3 d)
  ++ hex_word (h4 d) ++ hex_word (h5 d) ++ hex_word (h6 d) ++ hex_word (h7 d).

(** [Sha256(s).toString()] *)
Definition toString (s : string) : string :=
  string_of_list_ascii (hex_digest (hash (bytes_of_string s))).

End Sha256.

Local Open Scope string_scope.
Local Open Scope Z_scope.

(* ===================================================================== *)
(** ** JavaScript values and operators of the rate-limit test

    [nowTime < this.__eventsNextAllowedSendRegister[name] || 0] parses as
    [(nowTime < register[name]) || 0]: [<] binds tighter than [||]. *)

Inductive jsval : Type :=
| JSUndefined
| JSBool (b : bool)
| JSNum (n : Z).

(** [!!v] *)
Definition truthy (v : jsval) : bool :=
  match v with
  | JSUndefined => false
  | JSBool b => b
  | JSNum n => negb (n =? 0)
  end.

(** [a < b] on numbers; [undefined] converts to [NaN], and every comparison
    with [NaN] is false. *)
Definition js_lt (a b : jsval) : jsval :=
  match a, b with
  | JSNum x, JSNum y => JSBool (x <? y)
  | _, _ => JSBool false
  end.

(** [a || b] *)
Definition js_or (a b : jsval) : jsval := if truthy a then a else b.

(** [object[key]] on a register of numbers. *)
Definition js_get (register : gmap string Z) (key : string) : jsval :=
  match register !! key with
  | Some v => JSNum v
  | None => JSUndefined
  end.

(* ===================================================================== *)
(** ** Strings *)

(** [s.split(sep)] for a one-character separator. *)
Fixpoint split (sep : ascii) (s : string) : list string :=
  match s with
  | EmptyString => [EmptyString]
  | String c rest =>
      if Ascii.eqb c sep then EmptyString :: split sep rest
      else match split sep rest with
           | p :: ps => String c p :: ps
           | [] => [String c EmptyString]
           end
  end.

(** [s.slice(0, n)] *)
Definition slice0 (n : nat) (s : string) : string := substring 0 n s.

Definition nonempty (s : string) : bool :=
  match s with EmptyString => false | String _ _ => true end.

(* ===================================================================== *)
(** ** Enumerations, interfaces and constants *)

Inductive Utility : Type :=
| Tracking    (* class UtilitiesTracking *)
| Analytics.  (* class UtilitiesAnalytics *)

(** [TrackingEventName] and [AnalyticsEventName] have the same members. *)
Inductive EventName : Type :=
| AppHeartbeat
| AccountSignin
| AccountSignout
| ProfileUpdate.

(** The string value of an enumeration member. *)
Definition EventName_value (name : EventName) : string :=
  match name with
  | AppHeartbeat => "app:heartbeat"
  | AccountSignin => "account:signin"
  | AccountSignout => "account:signout"
  | ProfileUpdate => "profile:update"
  end.

#[local] Unset Elimination Schemes.
(** The optional [data?: object] of an event. *)
Inductive json : Type :=
| JNull
| JBoolean (b : bool)
| JNumber (n : Z)
| JString (s : string)
| JArray (items : list json)
| JObject (fields : list (string * json)).
#[local] Set Elimination Schemes.

Record EventOriginApp : Type := MkEventOriginApp
  { app_name : string; app_version : string; app_platform : string }.

Record EventOriginPod : Type := MkEventOriginPod
  { domain_hash : string; user_hash : option string }.

Record EventOrigin : Type := MkEventOrigin
  { origin_app : EventOriginApp; origin_pod : EventOriginPod }.

Record EventPayload : Type := MkEventPayload
  { payload_name : EventName;
    payload_data : option json;
    payload_origin : EventOrigin }.

Definition EVENT_NAME_NEXT_SEND_DELAY : Z := 3000.

Definition ANONYMIZED_USER_IDENTIFIER_SHORT_LENGTH : nat := 16.

(* ===================================================================== *)
(** ** Collaborators *)

(** The [JID] object of the SDK, as far as the utilities observe it:
    its [domain] and [node] properties and the string [toString()] gives. *)
Record JID : Type := MkJID
  { jid_domain : option string;
    jid_node : option string;
    jid_toString : string }.

(** [package.json] and the runtime platform, read once at construction. *)
Record Package : Type := MkPackage
  { package_name : string; package_version : string }.

(** What one call of [event] reads from the stores, the configuration and the
    clock. *)
Record Environment : Type := MkEnvironment
  { privacy_report_tracking : option bool;
      (* Store.$settings.privacy.report.tracking *)
    overrides_disableTracking : option bool;
      (* CONFIG.overrides?.disableTracking *)
    overrides_disableAnalytics : option bool;
      (* CONFIG.overrides?.disableAnalytics *)
    url_proseWeb : string;           (* CONFIG.url.proseWeb *)
    selfJID : JID;                   (* Store.$account.getSelfJID() *)
    now : Z }.                       (* Date.now(), in milliseconds *)

Inductive Error : Type :=
| MkError (message : string).

Definition error_message (e : Error) : string :=
  match e with MkError m => m end.

(** The argument of [fetch]; [req_body] stands for [JSON.stringify(eventData)]. *)
Record Request : Type := MkRequest
  { req_url : string;
    req_method : string;
    req_headers : list (string * string);
    req_body : EventPayload;
    req_mode : string;
    req_credentials : string }.

(** How the promise of [fetch] settles: rejected with a network error, or
    fulfilled with a response whose [ok] is given. *)
Inductive FetchOutcome : Type :=
| NetworkError (e : Error)
| Response (ok : bool).

Inductive LogLevel : Type := Debug | Info | Warn.

Inductive LogArgument : Type :=
| NoArgument
| PayloadArgument (p : EventPayload)
| ErrorArgument (e : Error)
| MessageArgument (m : string).

Record LogEntry : Type := MkLogEntry
  { log_level : LogLevel; log_message : string; log_argument : LogArgument }.

(* ===================================================================== *)
(** ** State and the monad of asynchronous code

    The state of one utility instance with what it did to the outside: the
    requests handed to [fetch] and the lines given to the logger, oldest
    first. *)

Record State : Type := MkState
  { eventOriginApp : EventOriginApp;                (* __eventOriginApp *)
    eventsNextAllowedSendRegister : gmap string Z;
      (* __eventsNextAllowedSendRegister *)
    requests : list Request;
    log : list LogEntry }.

(** An async function runs until it returns, throws, or reaches
    [await fetch(...)]; there it hands control back, and the rest runs when
    the request settles, on the state of that moment.  Each case carries the
    state reached. *)
Inductive Run (A : Type) : Type :=
| Returned (st : State) (a : A)
| Thrown (st : State) (e : Error)
| Awaiting (st : State) (k : FetchOutcome -> State -> Run A).

Arguments Returned {A} st a.
Arguments Thrown {A} st e.
Arguments Awaiting {A} st k.

Definition Async (A : Type) : Type := State -> Run A.

Definition state_of {A} (r : Run A) : State :=
  match r with
  | Returned st _ | Thrown st _ | Awaiting st _ => st
  end.

Definition ret {A} (a : A) : Async A := fun st => Returned st a.

Definition throw {A} (e : Error) : Async A := fun st => Thrown st e.

Fixpoint bind_run {A B} (r : Run A) (f : A -> Async B) : Run B :=
  match r with
  | Returned st a => f a st
  | Thrown st e => Thrown st e
  | Awaiting st k => Awaiting st (fun fo st' => bind_run (k fo st') f)
  end.

Definition bind {A B} (m : Async A) (f : A -> Async B) : Async B :=
  fun st => bind_run (m st) f.

(** [try { body } catch (error) { handler }] *)
Fixpoint catch_run {A} (r : Run A) (handler : Error -> Async A) : Run A :=
  match r with
  | Returned st a => Returned st a
  | Thrown st e => handler e st
  | Awaiting st k => Awaiting st (fun fo st' => catch_run (k fo st') handler)
  end.

Definition try_catch {A} (body : Async A) (handler : Error -> Async A)
  : Async A :=
  fun st => catch_run (body st) handler.

Notation "'let*' x ':=' m 'in' f" := (bind m (fun x => f))
  (at level 10, x name, m at level 100, f at level 200).
Notation "m ';;' f" := (bind m (fun _ => f))
  (at level 100, f at level 200, right associativity).

(** What came back from [await]ing: a settled request resumes the awaiting
    code; a promise already settled is left as it is. *)
Definition deliver {A} (r : Run A) (fo : FetchOutcome) (st : State) : Run A :=
  match r with
  | Awaiting _ k => k fo st
  | _ => r
  end.

(* ===================================================================== *)
(** ** Primitive effects *)

Definition set_log (st : State) (l : list LogEntry) : State :=
  MkState (eventOriginApp st) (eventsNextAllowedSendRegister st) (requests st) l.

Definition set_register (st : State) (r : gmap string Z) : State :=
  MkState (eventOriginApp st) r (requests st) (log st).

Definition set_requests (st : State) (rs : list Request) : State :=
  MkState (eventOriginApp st) (eventsNextAllowedSendRegister st) rs (log st).

Definition write_log (entry : LogEntry) : Async unit :=
  fun st => Returned (set_log st (log st ++ [entry])%list) tt.

(** [logger.debug], [logger.info], [logger.warn] *)
Definition logger (level : LogLevel) (message : string) (arg : LogArgument)
  : Async unit :=
  write_log (MkLogEntry level message arg).

Definition read_register : Async (gmap string Z) :=
  fun st => Returned st (eventsNextAllowedSendRegister st).

Definition write_register (key : string) (value : Z) : Async unit :=
  fun st =>
    Returned (set_register st (<[key := value]> (eventsNextAllowedSendRegister st))) tt.

(** [await fetch(url, options)]: the request leaves, and the code resumes
    with [response.ok] or with the error the promise was rejected with. *)
Definition fetch (req : Request) : Async bool :=
  fun st =>
    Awaiting (set_requests st (requests st ++ [req])%list)
      (fun fo st' =>
         match fo with
         | NetworkError e => Thrown st' e
         | Response ok => Returned st' ok
         end).

(* ===================================================================== *)
(** ** The utilities

    The two classes differ in the user identifier they hash, the override
    they obey, their endpoint, their wording, and in how [event] calls
    [__dispatchEvent]; [Utility] selects between them. *)

Definition label (u : Utility) : string :=
  match u with Tracking => "tracking" | Analytics => "analytics" end.

Definition endpoint (u : Utility) : string :=
  match u with
  | Tracking => "/_api/cloud/v1/track/event"
  | Analytics => "/_api/cloud/v1/analytics/event"
  end.

(** [CONFIG.overrides?.disableTracking === true] and its analytics twin. *)
Definition disabled_by_override (u : Utility) (env : Environment) : bool :=
  match (match u with
         | Tracking => overrides_disableTracking env
         | Analytics => overrides_disableAnalytics env
         end) with
  | Some true => true
  | _ => false
  end.

Definition override_error (u : Utility) : Error :=
  match u with
  | Tracking => MkError "Tracking disabled by override"
  | Analytics => MkError "Analytics disabled by override"
  end.

Definition request_failed_error (u : Utility) : Error :=
  match u with
  | Tracking => MkError "Tracking request failed"
  | Analytics => MkError "Analytics request failed"
  end.

(** [Store.$settings.privacy.report.tracking !== false] *)
Definition reporting_allowed (env : Environment) : bool :=
  match privacy_report_tracking env with
  | Some false => false
  | _ => true
  end.

(** [__prepareEventOriginApp]: [name.split("/")[1] || name]. *)
Definition prepareEventOriginApp (pkg : Package) (runtimePlatform : string)
  : EventOriginApp :=
  MkEventOriginApp
    (match nth_error (split "/" (package_name pkg)) 1 with
     | Some part => if nonempty part then part else package_name pkg
     | None => package_name pkg
     end)
    (package_version pkg)
    runtimePlatform.

Definition constructor (pkg : Package) (runtimePlatform : string) : State :=
  MkState (prepareEventOriginApp pkg runtimePlatform) ∅ [] [].

(** [__anonymizeUserIdentifier] *)
Definition anonymizeUserIdentifier (identifier : option string)
  : option string :=
  match identifier with
  | Some id =>
      if nonempty id
      then Some (slice0 ANONYMIZED_USER_IDENTIFIER_SHORT_LENGTH
                        (Sha256.toString id))
      else None
  | None => None
  end.

(** The identifier hashed into [user_hash]: [selfJID.node] for tracking,
    [selfJID.toString()] for analytics. *)
Definition userIdentifier (u : Utility) (jid : JID) : option string :=
  match u with
  | Tracking => jid_node jid
  | Analytics => Some (jid_toString jid)
  end.

(** [__makeEventOrigin] *)
Definition makeEventOrigin (u : Utility) (env : Environment)
  : Async EventOrigin :=
  fun st =>
    let domainHash := anonymizeUserIdentifier (jid_domain (selfJID env)) in
    let userHash := anonymizeUserIdentifier (userIdentifier u (selfJID env)) in
    match domainHash, userHash with
    | Some d, Some h =>
        Returned st (MkEventOrigin (eventOriginApp st)
                                   (MkEventOriginPod d (Some h)))
    | _, _ => Thrown st (MkError "Incomplete origin data")
    end.

Definition make_request (u : Utility) (env : Environment)
  (eventData : EventPayload) : Request :=
  MkRequest (url_proseWeb env ++ endpoint u) "POST"
            [("Accept", "application/json");
             ("Content-Type", "application/json")]
            eventData "cors" "omit".

(** The [catch (error)] block of [__dispatchEvent]. *)
Definition failure_entry (u : Utility) (name : EventName) (error : Error)
  : LogEntry :=
  match u with
  | Tracking =>
      MkLogEntry Warn
        ("Failed tracking event: '" ++ EventName_value name ++ "' (ignoring)")
        (ErrorArgument error)
  | Analytics =>
      MkLogEntry Info
        ("Could not record analytics event: '" ++ EventName_value name ++ "'")
        (if nonempty (error_message error)
         then MessageArgument (error_message error)
         else ErrorArgument error)
  end.

Definition on_failure (u : Utility) (name : EventName) (error : Error)
  : Async unit :=
  write_log (failure_entry u name error).

(** The test of the rate limit, as written. *)
Definition sending_too_frequently (nowTime : Z) (register : gmap string Z)
  (name : EventName) : bool :=
  truthy (js_or (js_lt (JSNum nowTime) (js_get register (EventName_value name)))
                (JSNum 0)).

(** [__dispatchEvent] *)
Definition dispatchEvent (u : Utility) (env : Environment) (name : EventName)
  (data : option json) : Async unit :=
  try_catch
    (let* origin := makeEventOrigin u env in
     let eventData := MkEventPayload name data origin in
     logger Debug
       ("Sending " ++ label u ++ " event: '" ++ EventName_value name ++ "'...")
       (PayloadArgument eventData) ;;
     (if disabled_by_override u env then throw (override_error u)
      else ret tt) ;;
     let nowTime := now env in
     let* register := read_register in
     (if sending_too_frequently nowTime register name
      then throw (MkError "Sending this event too frequently")
      else ret tt) ;;
     write_register (EventName_value name)
                    (nowTime + EVENT_NAME_NEXT_SEND_DELAY) ;;
     let* response_ok := fetch (make_request u env eventData) in
     (if negb response_ok then throw (request_failed_error u) else ret tt) ;;
     logger Info
       ("Sent " ++ label u ++ " event: '" ++ EventName_value name ++ "'")
       NoArgument)
    (fun error => on_failure u name error).

(** What a call of [event] hands over: [caller_sees] is what the caller
    holds when control is back (for the async [event] of tracking, the
    promise: fulfilled, rejected or pending; for the plain [event] of
    analytics, its return or its exception), and [detached] is the promise of
    a dispatch that was started and not awaited. *)
Record Call : Type := MkCall
  { caller_sees : Run unit;
    detached : option (Run unit) }.

Definition skipped_entry (u : Utility) (name : EventName) : LogEntry :=
  MkLogEntry Debug
    ("Skipped sending " ++ label u ++ " event: '" ++ EventName_value name
       ++ "' (opted out)")
    NoArgument.

(** [event] *)
Definition event (u : Utility) (env : Environment) (name : EventName)
  (data : option json) (st : State) : Call :=
  if reporting_allowed env then
    match u with
    | Tracking =>
        (* await this.__dispatchEvent(name, data) *)
        MkCall (dispatchEvent u env name data st) None
    | Analytics =>
        (* this.__dispatchEvent(name, data), not awaited *)
        let dispatch := dispatchEvent u env name data st in
        MkCall (Returned (state_of dispatch) tt) (Some dispatch)
    end
  else
    MkCall (write_log (skipped_entry u name) st) None.

(** The state when control is back at the caller. *)
Definition state_at_return (c : Call) : State := state_of (caller_sees c).

(** The promise of the dispatch the call started, if it started one. *)
Definition dispatch_of (c : Call) : Run unit :=
  match detached c with
  | Some r => r
  | None => caller_sees c
  end.

(* ===================================================================== *)
(** ** Vocabulary of the statements *)

Definition add_log (st : State) (entries : list LogEntry) : State :=
  set_log st (log st ++ entries)%list.

(** The pod origin of an identity, when both hashes exist. *)
Definition origin_pod_of (u : Utility) (jid : JID) : option EventOriginPod :=
  match anonymizeUserIdentifier (jid_domain jid),
        anonymizeUserIdentifier (userIdentifier u jid) with
  | Some d, Some h => Some (MkEventOriginPod d (Some h))
  | _, _ => None
  end.

Definition payload_of (st : State) (name : EventName) (data : option json)
  (pod : EventOriginPod) : EventPayload :=
  MkEventPayload name data (MkEventOrigin (eventOriginApp st) pod).

Definition sending_entry (u : Utility) (name : EventName)
  (eventData : EventPayload) : LogEntry :=
  MkLogEntry Debug
    ("Sending " ++ label u ++ " event: '" ++ EventName_value name ++ "'...")
    (PayloadArgument eventData).

Definition sent_entry (u : Utility) (name : EventName) : LogEntry :=
  MkLogEntry Info
    ("Sent " ++ label u ++ " event: '" ++ EventName_value name ++ "'")
    NoArgument.

(** The line logged when the request of a dispatch settles. *)
Definition settled_entry (u : Utility) (name : EventName) (fo : FetchOutcome)
  : LogEntry :=
  match fo with
  | NetworkError e => failure_entry u name e
  | Response true => sent_entry u name
  | Response false => failure_entry u name (request_failed_error u)
  end.

(** The state in which a dispatch that passed every gate awaits its
    response. *)
Definition reserved_state (u : Utility) (env : Environment) (name : EventName)
  (data : option json) (pod : EventOriginPod) (st : State) : State :=
  let eventData := payload_of st name data pod in
  set_requests
    (set_register (add_log st [sending_entry u name eventData])
       (<[EventName_value name := now env + EVENT_NAME_NEXT_SEND_DELAY]>
          (eventsNextAllowedSendRegister st)))
    (requests st ++ [make_request u env eventData])%list.

(** Some gate stops the call. *)
Definition vetoed (u : Utility) (env : Environment) (st : State)
  (name : EventName) : Prop :=
  reporting_allowed env = false
  \/ disabled_by_override u env = true
  \/ sending_too_frequently (now env) (eventsNextAllowedSendRegister st) name
     = true
  \/ origin_pod_of u (selfJID env) = None.

(** A promise that can only be fulfilled, whatever the network answers. *)
Fixpoint never_rejects {A} (r : Run A) : Prop :=
  match r with
  | Returned _ _ => True
  | Thrown _ _ => False
  | Awaiting _ k => forall fo st, never_rejects (k fo st)
  end.

(** [st'] is [st] with more lines in the log, and nothing else changed. *)
Definition only_logged (st st' : State) : Prop :=
  eventOriginApp st' = eventOriginApp st
  /\ eventsNextAllowedSendRegister st' = eventsNextAllowedSendRegister st
  /\ requests st' = requests st
  /\ exists entries, log st' = (log st ++ entries)%list.

(* ===================================================================== *)
(** ** The event loop

    Calls of [event] and settlements of requests in flight, in any order.
    [inflight] holds what the dispatches still awaiting a response will do
    when it comes. *)

Record System : Type := MkSystem
  { current : State;
    inflight : list (FetchOutcome -> State -> Run unit) }.

Inductive Action : Type :=
| Invoke (env : Environment) (name : EventName) (data : option json)
| Settle (i : nat) (fo : FetchOutcome).

Definition suspended (r : Run unit)
  : list (FetchOutcome -> State -> Run unit) :=
  match r with
  | Awaiting _ k => [k]
  | _ => []
  end.

Definition step (u : Utility) (sys : System) (a : Action) : System :=
  match a with
  | Invoke env name data =>
      let c := event u env name data (current sys) in
      MkSystem (state_at_return c)
               (inflight sys ++ suspended (dispatch_of c))%list
  | Settle i fo =>
      match inflight sys !! i with
      | Some k =>
          let r := k fo (current sys) in
          MkSystem (state_of r) (delete i (inflight sys) ++ suspended r)%list
      | None => sys
      end
  end.

Definition run (u : Utility) (actions : list Action) (sys : System) : System :=
  fold_left (step u) actions sys.

(** A fresh instance, nothing in flight. *)
Definition boot (pkg : Package) (runtimePlatform : string) : System :=
  MkSystem (constructor pkg runtimePlatform) [].

Definition settlements (l : list (nat * FetchOutcome)) : list Action :=
  map (fun s => Settle (fst s) (snd s)) l.


(** Everything in flight will, when its request settles, write to the log
    and end. *)
Definition quiet_pool (sys : System) : Prop :=
  Forall (fun k : FetchOutcome -> State -> Run unit =>
            forall fo st, exists entries,
              k fo st = Returned (add_log st entries) tt)
         (inflight sys).

(** The app origin of the instance and of every payload sent is [app]. *)
Definition app_origin_is (app : EventOriginApp) (st : State) : Prop :=
  eventOriginApp st = app
  /\ Forall (fun request =>
               origin_app (payload_origin (req_body request)) = app)
            (requests st).

(* ===================================================================== *)
(** ** Hexadecimal strings *)



(* ===================================================================== *)
(** ** More vocabulary for the utilities *)

#[global] Instance EventName_eq_dec : EqDecision EventName.
Proof. solve_decision. Defined.

(** How many of the requests carry an event of this name. *)
Definition requests_for (name : EventName) (rs : list Request) : nat :=
  List.length (filter (fun r => payload_name (req_body r) = name) rs).

(** Every entry of [r] is still in [r'], with a time at least as late. *)
Definition register_le (r r' : gmap string Z) : Prop :=
  forall key v, r !! key = Some v -> exists v', r' !! key = Some v' /\ v <= v'.

(** The calls for [name] among the actions come at times in
    [t0, t0 + 3000). *)
Definition in_window (name : EventName) (t0 : Z) (a : Action) : Prop :=
  match a with
  | Invoke env name' _ =>
      name' = name -> t0 <= now env < t0 + EVENT_NAME_NEXT_SEND_DELAY
  | Settle _ _ => True
  end.

(** The options every request is sent with. *)
Definition wire_contract (u : Utility) (r : Request) : Prop :=
  req_method r = "POST"
  /\ req_headers r
     = [("Accept", "application/json"); ("Content-Type", "application/json")]
  /\ req_mode r = "cors"
  /\ req_credentials r = "omit"
  /\ exists base, req_url r = base ++ endpoint u.

(** Both hashes are there, 16 characters each. *)
Definition anonymized (pod : EventOriginPod) : Prop :=
  String.length (domain_hash pod) = 16%nat
  /\ exists h, user_hash pod = Some h /\ String.length h = 16%nat.

Fixpoint has_char (c : ascii) (s : string) : bool :=
  match s with
  | EmptyString => false
  | String c' rest => Ascii.eqb c' c || has_char c rest
  end.

(* ===================================================================== *)
(** ** The heartbeat of [AppBase]

    The component schedules, through [worker-timers], a first heartbeat a
    little after it is mounted and one more every day; it is the caller of
    the [event] of tracking.  The identifiers that [setTimeout] and
    [setInterval] return are chosen by the timers library: here they are
    inputs.  The timers hold the delay they were set with; a timeout runs the
    liveness callback, an interval runs [tickHeartbeatReporting()].  A
    timeout that has gone off is no longer set, and clearing an identifier
    that is not set changes no timer. *)

Module AppBase.

Definition HEARTBEAT_REPORTING_TICK_INITIAL_DELAY : Z := 30000.

Definition HEARTBEAT_REPORTING_INTERVAL : Z := 86400000.

(** [data()] *)
Record Component : Type := MkComponent
  { heartbeatReportingTickTimeout : option nat;
    heartbeatReportingInterval : option nat }.

Record Timers : Type := MkTimers
  { timeouts : gmap nat Z;
    intervals : gmap nat Z }.

Record App : Type := MkApp
  { component : Component;
    timers : Timers;
    tracking : System }.

Definition setWorkerTimeout (id : nat) (delay : Z) (t : Timers) : Timers :=
  MkTimers (<[id := delay]> (timeouts t)) (intervals t).

Definition clearWorkerTimeout (id : nat) (t : Timers) : Timers :=
  MkTimers (delete id (timeouts t)) (intervals t).

Definition setWorkerInterval (id : nat) (delay : Z) (t : Timers) : Timers :=
  MkTimers (timeouts t) (<[id := delay]> (intervals t)).

Definition clearWorkerInterval (id : nat) (t : Timers) : Timers :=
  MkTimers (timeouts t) (delete id (intervals t)).

(** [tickHeartbeatReporting(initial)]; [id] is what [setWorkerTimeout]
    returns. *)
Definition tickHeartbeatReporting (initial : bool) (id : nat) (app : App)
  : App :=
  let cleared :=
    match heartbeatReportingTickTimeout (component app) with
    | Some previous => clearWorkerTimeout previous (timers app)
    | None => timers app
    end in
  MkApp
    (MkComponent (Some id) (heartbeatReportingInterval (component app)))
    (setWorkerTimeout id
       (if initial then HEARTBEAT_REPORTING_TICK_INITIAL_DELAY else 0)
       cleared)
    (tracking app).

(** [setupHeartbeatReporting()]; [tick_id] and [interval_id] are what
    [setWorkerTimeout] and [setWorkerInterval] return. *)
Definition setupHeartbeatReporting (tick_id interval_id : nat) (app : App)
  : App :=
  match heartbeatReportingInterval (component app) with
  | None =>
      let ticked := tickHeartbeatReporting true tick_id app in
      MkApp
        (MkComponent (heartbeatReportingTickTimeout (component ticked))
                     (Some interval_id))
        (setWorkerInterval interval_id HEARTBEAT_REPORTING_INTERVAL
                           (timers ticked))
        (tracking ticked)
  | Some _ => app
  end.

(** [unsetupHeartbeatReporting()] *)
Definition unsetupHeartbeatReporting (app : App) : App :=
  let app1 :=
    match heartbeatReportingInterval (component app) with
    | Some id =>
        MkApp (MkComponent (heartbeatReportingTickTimeout (component app)) None)
              (clearWorkerInterval id (timers app))
              (tracking app)
    | None => app
    end in
  match heartbeatReportingTickTimeout (component app1) with
  | Some id =>
      MkApp (MkComponent None (heartbeatReportingInterval (component app1)))
            (clearWorkerTimeout id (timers app1))
            (tracking app1)
  | None => app1
  end.

(** What happens to the component: its lifecycle hooks, a timer that goes
    off, a request of tracking that settles. *)
Inductive Happening : Type :=
| Mounted (tick_id interval_id : nat)
| Unmounted
| TimeoutFires (id : nat) (env : Environment)
| IntervalFires (id : nat) (tick_id : nat)
| RequestSettles (i : nat) (fo : FetchOutcome).

Definition happen (app : App) (h : Happening) : App :=
  match h with
  | Mounted tick_id interval_id =>
      setupHeartbeatReporting tick_id interval_id app
  | Unmounted => unsetupHeartbeatReporting app
  | TimeoutFires id env =>
      match timeouts (timers app) !! id with
      | Some _ =>
          (* () => { UtilitiesTracking.event(TrackingEventName.AppHeartbeat) } *)
          MkApp (component app)
                (clearWorkerTimeout id (timers app))
                (step Tracking (tracking app) (Invoke env AppHeartbeat None))
      | None => app
      end
  | IntervalFires id tick_id =>
      match intervals (timers app) !! id with
      | Some _ => tickHeartbeatReporting false tick_id app
      | None => app
      end
  | RequestSettles i fo =>
      MkApp (component app) (timers app)
            (step Tracking (tracking app) (Settle i fo))
  end.

Definition live (happenings : list Happening) (app : App) : App :=
  fold_left happen happenings app.

(** The component as created, no timer set, over a fresh tracking
    instance. *)
Definition created (pkg : Package) (runtimePlatform : string) : App :=
  MkApp (MkComponent None None) (MkTimers ∅ ∅) (boot pkg runtimePlatform).

(** The timers set are the ones the component remembers, with the delays
    of the heartbeat. *)
Definition tidy (app : App) : Prop :=
  (forall id delay,
      timeouts (timers app) !! id = Some delay ->
      heartbeatReportingTickTimeout (component app) = Some id
      /\ (delay = HEARTBEAT_REPORTING_TICK_INITIAL_DELAY \/ delay = 0))
  /\ (forall id delay,
         intervals (timers app) !! id = Some delay ->
         heartbeatReportingInterval (component app) = Some id
         /\ delay = HEARTBEAT_REPORTING_INTERVAL)
  /\ (forall id,
         heartbeatReportingInterval (component app) = Some id ->
         intervals (timers app) !! id = Some HEARTBEAT_REPORTING_INTERVAL)
  /\ (heartbeatReportingInterval (component app) = None ->
      timeouts (timers app) = ∅).

Definition is_mount (h : Happening) : bool :=
  match h with Mounted _ _ => true | _ => false end.

End AppBase.

(* ===================================================================== *)
(** ** Plain JavaScript objects used as maps

    The stores keep their entries in plain objects ([{}]) indexed by
    strings.  Such an object has its own properties and, through its
    prototype, the members of [Object.prototype]: [key in object] and
    [object[key]] see both. *)

Module JsObject.

Definition Object_prototype_keys : list string :=
  ["constructor"; "__defineGetter__"; "__defineSetter__"; "hasOwnProperty";
   "__lookupGetter__"; "__lookupSetter__"; "isPrototypeOf";
   "propertyIsEnumerable"; "toString"; "valueOf"; "__proto__";
   "toLocaleString"].

Definition inherited (key : string) : bool :=
  existsb (String.eqb key) Object_prototype_keys.

(** What [object[key]] gives: an own property, a member of the prototype,
    or [undefined]. *)
Inductive Lookup (V : Type) : Type :=
| Own (v : V)
| Inherited
| Undefined.

Arguments Own {V} v.
Arguments Inherited {V}.
Arguments Undefined {V}.

(** [key in object] *)
Definition has {V} (object : gmap string V) (key : string) : bool :=
  match object !! key with
  | Some _ => true
  | None => inherited key
  end.

(** [object[key]] *)
Definition get {V} (object : gmap string V) (key : string) : Lookup V :=
  match object !! key with
  | Some v => Own v
  | None => if inherited key then Inherited else Undefined
  end.

End JsObject.

(* ===================================================================== *)
(** ** The activity store ([$activity]) *)

Module StoreActivity.

Record ActivityEntryStatus : Type := MkActivityEntryStatus
  { icon : string; text : option string }.

Record ActivityEntry : Type := MkActivityEntry
  { id : option string; status : option ActivityEntryStatus }.

(** The [UserStatus] of the SDK, as far as the store reads it. *)
Record UserStatus : Type := MkUserStatus
  { status_icon : string; status_text : option string }.

Record Activity : Type := MkActivity
  { entries : gmap string ActivityEntry }.

(** [state()] *)
Definition state : Activity := MkActivity ∅.

(** [assert(jid)]: the entry comes back by reference, here with the store
    it lives in. *)
Definition assert (jid : JID) (st : Activity)
  : Activity * JsObject.Lookup ActivityEntry :=
  let jidString := jid_toString jid in
  let st' :=
    if negb (JsObject.has (entries st) jidString)
    then MkActivity (<[jidString := MkActivityEntry None None]> (entries st))
    else st in
  (st', JsObject.get (entries st') jidString).

(** [getActivity(jid)] *)
Definition getActivity (jid : JID) (st : Activity)
  : Activity * JsObject.Lookup ActivityEntry :=
  assert jid st.

(** [setActivity(jid, status)].  The entry asserted is an object of the
    store: writing to it changes the store.  When the key names a member of
    [Object.prototype] and the store has no entry of its own for it, that
    member is what comes back and what is written to: the store is not. *)
Definition setActivity (jid : JID) (new_status : option UserStatus)
  (st : Activity) : Activity * JsObject.Lookup ActivityEntry :=
  let (st', activity) := assert jid st in
  match activity with
  | JsObject.Own entry =>
      let entry' :=
        match new_status with
        | Some s =>
            MkActivityEntry (id entry)
              (Some (MkActivityEntryStatus (status_icon s)
                       (match status_text s with
                        | Some t => if nonempty t then Some t else None
                        | None => None
                        end)))
        | None => MkActivityEntry None None
        end in
      (MkActivity (<[jid_toString jid := entry']> (entries st')),
       JsObject.Own entry')
  | other => (st', other)
  end.

End StoreActivity.

(* ===================================================================== *)
(** ** The avatar store ([$avatar]) *)

Module StoreAvatar.

(** The store, the loading markers of [LOCAL_STATES], and what went out:
    the JIDs asked of the broker and the events emitted on the bus, oldest
    first. *)
Record Avatar : Type := MkAvatar
  { entries : gmap string string;
    loading : gmap string bool;
    broker_calls : list string;
    emitted : list (string * string) }.

(** [state()] *)
Definition state : Avatar := MkAvatar ∅ ∅ [] [].

(** [assert(jid)] *)
Definition assert (jid : JID) (st : Avatar) : JsObject.Lookup string :=
  JsObject.get (entries st) (jid_toString jid).

(** [getAvatarDataUrl(jid)] *)
Definition getAvatarDataUrl (jid : JID) (st : Avatar)
  : JsObject.Lookup string :=
  assert jid st.

(** [if (LOCAL_STATES.loading[jidString])]: a marker that is [true], or a
    member of [Object.prototype], which is an object or a function. *)
Definition marked (st : Avatar) (jidString : string) : bool :=
  match JsObject.get (loading st) jidString with
  | JsObject.Own b => b
  | JsObject.Inherited => true
  | JsObject.Undefined => false
  end.

(** How [Broker.$profile.loadAvatarData(jid)] settles: rejected, or
    fulfilled with a response holding a data URL, or with none. *)
Inductive Loaded : Type :=
| LoadRejected (e : Error)
| LoadResolved (dataURL : option string).

(** [load(jid)] up to [await]: [Some key] when the broker has been asked
    and the load awaits its answer, [None] when the load has returned. *)
Definition load_begin (jid : JID) (st : Avatar) : Avatar * option string :=
  let jidString := jid_toString jid in
  if marked st jidString then (st, None)
  else
    (MkAvatar (entries st) (<[jidString := true]> (loading st))
              (broker_calls st ++ [jidString])%list (emitted st),
     Some jidString).

(** [load(jid)] from [await] on; [inl e] when the promise of [load] is
    rejected. *)
Definition load_resume (jidString : string) (answer : Loaded) (st : Avatar)
  : Avatar * (Error + unit) :=
  match answer with
  | LoadRejected e => (st, inl e)
  | LoadResolved (Some dataURL) =>
      (MkAvatar (<[jidString := dataURL]> (entries st))
                (delete jidString (loading st))
                (broker_calls st)
                (emitted st ++ [("avatar:changed", jidString)])%list,
       inr tt)
  | LoadResolved None =>
      (MkAvatar (delete jidString (entries st))
                (delete jidString (loading st))
                (broker_calls st)
                (emitted st ++ [("avatar:flushed", jidString)])%list,
       inr tt)
  end.

(** The store with the loads that await the broker. *)
Record Loads : Type := MkLoads
  { store : Avatar;
    awaiting : list string }.

Inductive Act : Type :=
| Load (jid : JID)
| Answer (i : nat) (answer : Loaded).

Definition act (l : Loads) (a : Act) : Loads :=
  match a with
  | Load jid =>
      let (st', pending) := load_begin jid (store l) in
      MkLoads st' (awaiting l ++ match pending with
                                 | Some key => [key]
                                 | None => []
                                 end)%list
  | Answer i answer =>
      match awaiting l !! i with
      | Some key =>
          MkLoads (fst (load_resume key answer (store l)))
                  (delete i (awaiting l))
      | None => l
      end
  end.

Definition perform (acts : list Act) (l : Loads) : Loads :=
  fold_left act acts l.

Definition started : Loads := MkLoads state [].

(** How many times the broker was asked for this JID. *)
Definition asked (key : string) (st : Avatar) : nat :=
  List.length (filter (fun k => k = key) (broker_calls st)).

(** Every load that awaits the broker does so for a JID of its own, marked
    as loading; the markers are all [true], under strings that name no
    member of [Object.prototype]. *)
Definition sound (l : Loads) : Prop :=
  NoDup (awaiting l)
  /\ (forall key, key ∈ awaiting l -> loading (store l) !! key = Some true)
  /\ (forall key b,
         loading (store l) !! key = Some b ->
         b = true /\ JsObject.inherited key = false).

(** The JID is marked as loading while no load awaits the broker for it. *)
Definition stuck (key : string) (l : Loads) : Prop :=
  loading (store l) !! key = Some true /\ key ∉ awaiting l.

End StoreAvatar.

(* ===================================================================== *)
(** ** The room store ([$room])

    [load] and the getters; [updateRoom], which writes into a room object
    shared between the maps and the lists, is left out. *)

From Stdlib Require Import Sorted.

Module StoreRoom.

(** [SidebarSection], [Room] and [SidebarItem] of the SDK, as far as the
    store reads them; a [RoomID] is a string. *)
Inductive SidebarSection : Type :=
| Favorites
| DirectMessage
| Channel.

#[global] Instance SidebarSection_eq_dec : EqDecision SidebarSection.
Proof. solve_decision. Defined.

Record CoreRoom : Type := MkCoreRoom
  { room_id : string; room_name : string }.

Record SidebarItem : Type := MkSidebarItem
  { item_name : string; item_section : SidebarSection; item_room : CoreRoom }.

(** The store, the [loaded] flag of [LOCAL_STATES], and how many times the
    broker was asked for the sidebar items. *)
Record Room : Type := MkRoom
  { favorites : list SidebarItem;
    directMessages : list SidebarItem;
    channels : list SidebarItem;
    byRoomId : gmap string SidebarItem;
    byId : gmap string CoreRoom;
    loaded : bool;
    broker_calls : nat }.

(** [state()] *)
Definition state : Room := MkRoom [] [] [] ∅ ∅ false 0.

(** [compareRooms], over the collation [localeCompare] of the host. *)
Definition compareRooms (localeCompare : string -> string -> Z)
  (left right : SidebarItem) : Z :=
  localeCompare (item_name left) (item_name right).

(** [array.sort(compare)]: the sort is stable, so that for a consistent
    comparison its result is the one of inserting each element before the
    first later element it does not come after. *)
Fixpoint sort_insert {A} (compare : A -> A -> Z) (x : A) (sorted : list A)
  : list A :=
  match sorted with
  | [] => [x]
  | y :: rest =>
      if compare x y <=? 0 then x :: y :: rest
      else y :: sort_insert compare x rest
  end.

Definition sort {A} (compare : A -> A -> Z) (l : list A) : list A :=
  foldr (sort_insert compare) [] l.

Definition getItemFavorites (st : Room) : list SidebarItem := favorites st.

Definition getItemDirectMessages (st : Room) : list SidebarItem :=
  directMessages st.

Definition getItemChannels (st : Room) : list SidebarItem := channels st.

(** [getRoomItem(roomID)] *)
Definition getRoomItem (st : Room) (roomID : string) : option SidebarItem :=
  byRoomId st !! roomID.

(** [getRoom(roomID)] *)
Definition getRoom (st : Room) (roomID : string) : option CoreRoom :=
  byId st !! roomID.

(** The arrays and maps that [forEach] fills. *)
Record Collected : Type := MkCollected
  { c_favorites : list SidebarItem;
    c_directMessages : list SidebarItem;
    c_channels : list SidebarItem;
    c_itemsByRoomId : gmap string SidebarItem;
    c_roomsById : gmap string CoreRoom }.

(** The callback of [sidebarItems.forEach]. *)
Definition collect (c : Collected) (item : SidebarItem) : Collected :=
  let c' :=
    match item_section item with
    | Favorites =>
        MkCollected (c_favorites c ++ [item])%list (c_directMessages c)
                    (c_channels c) (c_itemsByRoomId c) (c_roomsById c)
    | DirectMessage =>
        MkCollected (c_favorites c) (c_directMessages c ++ [item])%list
                    (c_channels c) (c_itemsByRoomId c) (c_roomsById c)
    | Channel =>
        MkCollected (c_favorites c) (c_directMessages c)
                    (c_channels c ++ [item])%list
                    (c_itemsByRoomId c) (c_roomsById c)
    end in
  MkCollected (c_favorites c') (c_directMessages c') (c_channels c')
    (<[room_id (item_room item) := item]> (c_itemsByRoomId c'))
    (<[room_id (item_room item) := item_room item]> (c_roomsById c')).

(** [load(reload)] up to [await]: [true] when the broker has been asked. *)
Definition load_begin (reload : bool) (st : Room) : Room * bool :=
  if negb (loaded st) || reload then
    (MkRoom (favorites st) (directMessages st) (channels st) (byRoomId st)
            (byId st) true (S (broker_calls st)),
     true)
  else (st, false).

(** How [Broker.$room.sidebarItems()] settles. *)
Inductive Listed : Type :=
| ListRejected (e : Error)
| ListResolved (sidebarItems : list SidebarItem).

(** [load(reload)] from [await] on. *)
Definition load_resume (localeCompare : string -> string -> Z)
  (answer : Listed) (st : Room) : Room * (Error + unit) :=
  match answer with
  | ListRejected e => (st, inl e)
  | ListResolved sidebarItems =>
      let c := fold_left collect sidebarItems (MkCollected [] [] [] ∅ ∅) in
      (MkRoom (sort (compareRooms localeCompare) (c_favorites c))
              (sort (compareRooms localeCompare) (c_directMessages c))
              (sort (compareRooms localeCompare) (c_channels c))
              (c_itemsByRoomId c) (c_roomsById c)
              (loaded st) (broker_calls st),
       inr tt)
  end.

(** The store with the number of loads that await the broker. *)
Record Loads : Type := MkLoads
  { store : Room;
    awaiting : nat }.

Inductive Act : Type :=
| Load (reload : bool)
| Answer (answer : Listed).

Definition act (localeCompare : string -> string -> Z) (l : Loads) (a : Act)
  : Loads :=
  match a with
  | Load reload =>
      let (st', asked) := load_begin reload (store l) in
      MkLoads st' (if asked then S (awaiting l) else awaiting l)
  | Answer answer =>
      match awaiting l with
      | S n => MkLoads (fst (load_resume localeCompare answer (store l))) n
      | O => l
      end
  end.

Definition perform (localeCompare : string -> string -> Z) (acts : list Act)
  (l : Loads) : Loads :=
  fold_left (act localeCompare) acts l.

Definition started : Loads := MkLoads state 0.

Definition is_reload (a : Act) : bool :=
  match a with Load true => true | _ => false end.

(** [left] does not come after [right]. *)
Definition in_order (localeCompare : string -> string -> Z)
  (left right : SidebarItem) : Prop :=
  compareRooms localeCompare left right <= 0.

End StoreRoom.

(* ===================================================================== *)
(** ** SHA-256 test vectors *)

Example sha256_abc :
  Sha256.toString "abc"
  = "ba7816bf8f01cfea414140de5dae2223b00361a396177a9cb410ff61f20015ad".
Proof. vm_compute. reflexivity. Qed.

Example sha256_empty :
  Sha256.toString ""
  = "e3b0c44298fc1c149afbf4c8996fb92427ae41e4649b934ca495991b7852b855".
Proof. vm_compute. reflexivity. Qed.

Example sha256_two_blocks :
  Sha256.toString
    "aaaaaaaaaaaaaaaaaaaaaaaaaaaaaaaaaaaaaaaaaaaaaaaaaaaaaaaaaaaaaaaaaaaaaaaaaaaaaaaaaaaaaaaaaaaaaaaaaaaa"
  = "2816597888e4a0d3a36b82b83316ab32680eb8f00f8cd3b904d681246d285a0e".
Proof. vm_compute. reflexivity. Qed.

(* ===================================================================== *)
(** ** The cases of [__dispatchEvent] *)

Lemma makeEventOrigin_eq (u : Utility) (env : Environment) (st : State) :
  makeEventOrigin u env st
  = match origin_pod_of u (selfJID env) with
    | Some pod => Returned st (MkEventOrigin (eventOriginApp st) pod)
    | None => Thrown st (MkError "Incomplete origin data")
    end.
Proof.
  unfold makeEventOrigin, origin_pod_of.
  destruct (anonymizeUserIdentifier (jid_domain (selfJID env)));
    destruct (anonymizeUserIdentifier (userIdentifier u (selfJID env)));
    reflexivity.
Qed.

Ltac run_dispatch :=
  unfold dispatchEvent, try_catch, bind;
  rewrite makeEventOrigin_eq.

Lemma dispatchEvent_incomplete_origin u env name data st :
  origin_pod_of u (selfJID env) = None ->
  dispatchEvent u env name data st
  = Returned
      (add_log st [failure_entry u name (MkError "Incomplete origin data")]) tt.
Proof.
  intros Hpod. run_dispatch. rewrite Hpod. reflexivity.
Qed.

Lemma dispatchEvent_override u env name data st pod :
  origin_pod_of u (selfJID env) = Some pod ->
  disabled_by_override u env = true ->
  dispatchEvent u env name data st
  = Returned
      (add_log (add_log st [sending_entry u name (payload_of st name data pod)])
               [failure_entry u name (override_error u)]) tt.
Proof.
  intros Hpod Hover. run_dispatch. rewrite Hpod.
  cbn [bind_run catch_run logger write_log]. rewrite Hover. reflexivity.
Qed.

Lemma dispatchEvent_too_frequent u env name data st pod :
  origin_pod_of u (selfJID env) = Some pod ->
  disabled_by_override u env = false ->
  sending_too_frequently (now env) (eventsNextAllowedSendRegister st) name
  = true ->
  dispatchEvent u env name data st
  = Returned
      (add_log (add_log st [sending_entry u name (payload_of st name data pod)])
               [failure_entry u name
                  (MkError "Sending this event too frequently")]) tt.
Proof.
  intros Hpod Hover Hfreq. run_dispatch. rewrite Hpod.
  cbn [bind_run catch_run logger write_log]. rewrite Hover.
  cbn [bind_run catch_run ret read_register set_log
       eventsNextAllowedSendRegister].
  rewrite Hfreq. reflexivity.
Qed.

Lemma dispatchEvent_sends u env name data st pod :
  origin_pod_of u (selfJID env) = Some pod ->
  disabled_by_override u env = false ->
  sending_too_frequently (now env) (eventsNextAllowedSendRegister st) name
  = false ->
  exists k,
    dispatchEvent u env name data st
    = Awaiting (reserved_state u env name data pod st) k
    /\ forall fo st',
        k fo st' = Returned (add_log st' [settled_entry u name fo]) tt.
Proof.
  intros Hpod Hover Hfreq. run_dispatch. rewrite Hpod.
  cbn [bind_run catch_run logger write_log]. rewrite Hover.
  cbn [bind_run catch_run ret read_register set_log
       eventsNextAllowedSendRegister].
  rewrite Hfreq.
  cbn [bind_run catch_run ret write_register fetch].
  eexists; split; [reflexivity|].
  intros [e|[|]] st'; reflexivity.
Qed.

(** The boundary of [try]/[catch]: a handler that cannot throw yields a
    promise that cannot be rejected, whatever the body does. *)
Lemma catch_run_never_rejects {A} (r : Run A) (handler : Error -> Async A) :
  (forall e st, never_rejects (handler e st)) ->
  never_rejects (catch_run r handler).
Proof.
  intros Hhandler. induction r as [st a|st e|st k IH]; cbn [catch_run never_rejects].
  - exact I.
  - apply Hhandler.
  - intros fo st'. apply IH.
Qed.

Lemma dispatchEvent_never_rejects u env name data st :
  never_rejects (dispatchEvent u env name data st).
Proof.
  unfold dispatchEvent, try_catch. apply catch_run_never_rejects.
  intros e st'. exact I.
Qed.

(** Every call of [__dispatchEvent] either ends at once, having written to
    the log only, or has passed every gate and awaits its response in the
    reserved state; what is left then writes one line to the log. *)
Lemma dispatchEvent_cases u env name data st :
  (exists entries,
      dispatchEvent u env name data st = Returned (add_log st entries) tt
      /\ (origin_pod_of u (selfJID env) = None
          \/ disabled_by_override u env = true
          \/ sending_too_frequently (now env)
               (eventsNextAllowedSendRegister st) name = true))
  \/ (exists pod k,
         origin_pod_of u (selfJID env) = Some pod
         /\ disabled_by_override u env = false
         /\ sending_too_frequently (now env)
              (eventsNextAllowedSendRegister st) name = false
         /\ dispatchEvent u env name data st
            = Awaiting (reserved_state u env name data pod st) k
         /\ forall fo st',
             k fo st' = Returned (add_log st' [settled_entry u name fo]) tt).
Proof.
  destruct (origin_pod_of u (selfJID env)) as [pod|] eqn:Hpod.
  - destruct (disabled_by_override u env) eqn:Hover.
    + left. eexists. split.
      * rewrite (dispatchEvent_override _ _ _ _ _ _ Hpod Hover).
        unfold add_log at 1. cbn [log add_log set_log].
        rewrite <- app_assoc. reflexivity.
      * auto.
    + destruct (sending_too_frequently (now env)
                  (eventsNextAllowedSendRegister st) name) eqn:Hfreq.
      * left. eexists. split.
        -- rewrite (dispatchEvent_too_frequent _ _ _ _ _ _ Hpod Hover Hfreq).
           unfold add_log at 1. cbn [log add_log set_log].
           rewrite <- app_assoc. reflexivity.
        -- auto.
      * right.
        destruct (dispatchEvent_sends u env name data st pod Hpod Hover Hfreq)
          as (k & Hk & Hres).
        exists pod, k. auto.
  - left. eexists. split.
    + apply dispatchEvent_incomplete_origin. exact Hpod.
    + auto.
Qed.

Lemma event_opted_out u env name data st :
  reporting_allowed env = false ->
  event u env name data st
  = MkCall (Returned (add_log st [skipped_entry u name]) tt) None.
Proof. intros H. unfold event. rewrite H. reflexivity. Qed.

Lemma event_dispatches u env name data st :
  reporting_allowed env = true ->
  state_at_return (event u env name data st)
  = state_of (dispatchEvent u env name data st)
  /\ dispatch_of (event u env name data st) = dispatchEvent u env name data st.
Proof.
  intros H. unfold event. rewrite H. destruct u; split; reflexivity.
Qed.

Lemma only_logged_refl st : only_logged st st.
Proof.
  repeat split. exists []. symmetry. apply app_nil_r.
Qed.

Lemma only_logged_add_log st entries : only_logged st (add_log st entries).
Proof. repeat split. exists entries. reflexivity. Qed.

Lemma only_logged_trans st1 st2 st3 :
  only_logged st1 st2 -> only_logged st2 st3 -> only_logged st1 st3.
Proof.
  intros (Ha & Hr & Hq & l & Hl) (Ha' & Hr' & Hq' & l' & Hl').
  repeat split; try congruence.
  exists (l ++ l')%list. rewrite Hl', Hl, app_assoc. reflexivity.
Qed.

Lemma log_add_log st entries : log (add_log st entries) = (log st ++ entries)%list.
Proof. reflexivity. Qed.

Lemma last_log_add_log st entry :
  last (log (add_log st [entry])) = Some entry.
Proof. rewrite log_add_log. apply last_snoc. Qed.

(* ===================================================================== *)
(** ** Failure absorption *)

(** C1. For every event name and data, in every state and under every
    failure condition, [event] never throws and never hands a rejected
    promise to anyone: what the caller holds and the dispatch itself can only
    be fulfilled, whatever the network answers.  Each failure ends in a line
    of the log: the opt-out in the debug line of the skip; an incomplete
    origin, the override, the rate limit, a transport error and a non-success
    response in the line the [catch] block writes, with the error of that
    failure. *)
Theorem record_never_throws u env name data st :
  let c := event u env name data st in
  never_rejects (caller_sees c)
  /\ never_rejects (dispatch_of c)
  /\ (reporting_allowed env = false ->
      caller_sees c = Returned (add_log st [skipped_entry u name]) tt)
  /\ (reporting_allowed env = true ->
      (origin_pod_of u (selfJID env) = None ->
       dispatch_of c
       = Returned
           (add_log st
              [failure_entry u name (MkError "Incomplete origin data")]) tt)
      /\ (origin_pod_of u (selfJID env) <> None ->
          disabled_by_override u env = true ->
          (exists s, dispatch_of c = Returned s tt)
          /\ last (log (state_at_return c))
             = Some (failure_entry u name (override_error u)))
      /\ (origin_pod_of u (selfJID env) <> None ->
          disabled_by_override u env = false ->
          sending_too_frequently (now env)
            (eventsNextAllowedSendRegister st) name = true ->
          (exists s, dispatch_of c = Returned s tt)
          /\ last (log (state_at_return c))
             = Some (failure_entry u name
                       (MkError "Sending this event too frequently")))
      /\ (origin_pod_of u (selfJID env) <> None ->
          disabled_by_override u env = false ->
          sending_too_frequently (now env)
            (eventsNextAllowedSendRegister st) name = false ->
          (forall e st',
              deliver (dispatch_of c) (NetworkError e) st'
              = Returned (add_log st' [failure_entry u name e]) tt)
          /\ (forall st',
                 deliver (dispatch_of c) (Response false) st'
                 = Returned
                     (add_log st'
                        [failure_entry u name (request_failed_error u)]) tt))).
Proof.
  cbv zeta. split; [|split; [|split]].
  - unfold event. destruct (reporting_allowed env); [destruct u|];
      cbn [caller_sees]; try exact I.
    apply dispatchEvent_never_rejects.
  - unfold event. destruct (reporting_allowed env); [destruct u|];
      cbn [dispatch_of detached caller_sees]; try exact I;
      apply dispatchEvent_never_rejects.
  - intros Hout. rewrite (event_opted_out _ _ _ _ _ Hout). reflexivity.
  - intros Hallowed.
    destruct (event_dispatches u env name data st Hallowed) as [Hst Hd].
    rewrite Hst, Hd. clear Hst Hd.
    destruct (origin_pod_of u (selfJID env)) as [pod|] eqn:Hpod.
    + split; [discriminate|]. split; [|split].
      * intros _ Hover.
        rewrite (dispatchEvent_override _ _ _ _ _ _ Hpod Hover).
        split; [eexists; reflexivity|]. cbn [state_of].
        apply last_log_add_log.
      * intros _ Hover Hfreq.
        rewrite (dispatchEvent_too_frequent _ _ _ _ _ _ Hpod Hover Hfreq).
        split; [eexists; reflexivity|]. cbn [state_of].
        apply last_log_add_log.
      * intros _ Hover Hfreq.
        destruct (dispatchEvent_sends u env name data st pod Hpod Hover Hfreq)
          as (k & Hk & Hres).
        rewrite Hk. cbn [deliver]. split; intros; apply Hres.
    + split.
      * intros _. apply dispatchEvent_incomplete_origin. exact Hpod.
      * split; [|split]; intros Habs; exfalso; apply Habs; reflexivity.
Qed.

(* ===================================================================== *)
(** ** The opt-out *)

(** C4. For every event name and data, when the privacy setting
    [report.tracking] is [false], [event] hands nothing to [fetch]: it writes
    the debug line of the skip, changes nothing else, starts no dispatch and
    returns without error. *)
Theorem opt_out_never_invokes_transport u env name data st :
  privacy_report_tracking env = Some false ->
  let c := event u env name data st in
  caller_sees c = Returned (add_log st [skipped_entry u name]) tt
  /\ detached c = None
  /\ suspended (dispatch_of c) = []
  /\ requests (state_at_return c) = requests st
  /\ eventsNextAllowedSendRegister (state_at_return c)
     = eventsNextAllowedSendRegister st
  /\ log (state_at_return c) = (log st ++ [skipped_entry u name])%list
  /\ log_level (skipped_entry u name) = Debug.
Proof.
  intros Hflag. cbv zeta.
  assert (Hout : reporting_allowed env = false)
    by (unfold reporting_allowed; rewrite Hflag; reflexivity).
  rewrite (event_opted_out _ _ _ _ _ Hout).
  repeat split.
Qed.

Lemma opt_out_never_invokes_transport_witness :
  let env := MkEnvironment (Some false) None None "https://prose.org"
               (MkJID (Some "example.org") (Some "alice") "alice@example.org")
               1000 in
  let st := constructor (MkPackage "@prose-im/prose-app-web" "0.1.0") "web" in
  requests (state_at_return (event Tracking env AccountSignin None st)) = [].
Proof.
  cbv zeta.
  exact (proj1 (proj2 (proj2 (proj2
    (opt_out_never_invokes_transport Tracking
       (MkEnvironment (Some false) None None "https://prose.org"
          (MkJID (Some "example.org") (Some "alice") "alice@example.org") 1000)
       AccountSignin None
       (constructor (MkPackage "@prose-im/prose-app-web" "0.1.0") "web")
       eq_refl))))).
Defined.

(* ===================================================================== *)
(** ** One call of [event] *)

Lemma event_effect u env name data st :
  let c := event u env name data st in
  (exists entries,
      state_at_return c = add_log st entries
      /\ (exists s, dispatch_of c = Returned s tt)
      /\ vetoed u env st name)
  \/ (exists pod k,
         reporting_allowed env = true
         /\ origin_pod_of u (selfJID env) = Some pod
         /\ disabled_by_override u env = false
         /\ sending_too_frequently (now env)
              (eventsNextAllowedSendRegister st) name = false
         /\ state_at_return c = reserved_state u env name data pod st
         /\ dispatch_of c = Awaiting (reserved_state u env name data pod st) k
         /\ forall fo st',
             k fo st' = Returned (add_log st' [settled_entry u name fo]) tt).
Proof.
  cbv zeta. destruct (reporting_allowed env) eqn:Hallowed.
  - destruct (event_dispatches u env name data st Hallowed) as [Hst Hd].
    rewrite Hst, Hd.
    destruct (dispatchEvent_cases u env name data st)
      as [(entries & Hr & Hwhy)|(pod & k & Hpod & Hover & Hfreq & Hr & Hk)].
    + left. exists entries. rewrite Hr. split; [reflexivity|].
      split; [eexists; reflexivity|].
      unfold vetoed. tauto.
    + right. exists pod, k. rewrite Hr. auto 10.
  - left. exists [skipped_entry u name].
    rewrite (event_opted_out _ _ _ _ _ Hallowed).
    split; [reflexivity|]. split; [eexists; reflexivity|].
    left. exact Hallowed.
Qed.

Lemma sending_too_frequently_lookup t (register : gmap string Z) name :
  sending_too_frequently t register name
  = match register !! EventName_value name with
    | Some next => t <? next
    | None => false
    end.
Proof.
  unfold sending_too_frequently, js_get.
  destruct (register !! EventName_value name) as [next|]; cbn; [|reflexivity].
  destruct (t <? next); reflexivity.
Qed.

Lemma reserved_state_register u env name data pod st :
  eventsNextAllowedSendRegister (reserved_state u env name data pod st)
  = <[EventName_value name := now env + EVENT_NAME_NEXT_SEND_DELAY]>
      (eventsNextAllowedSendRegister st).
Proof. reflexivity. Qed.

Lemma reserved_state_requests u env name data pod st :
  requests (reserved_state u env name data pod st)
  = (requests st ++ [make_request u env (payload_of st name data pod)])%list.
Proof. reflexivity. Qed.

Lemma reserved_state_log u env name data pod st :
  log (reserved_state u env name data pod st)
  = (log st ++ [sending_entry u name (payload_of st name data pod)])%list.
Proof. reflexivity. Qed.

(** A call that comes while the register holds a later time for its name
    hands nothing to [fetch] and leaves the register alone. *)
Lemma event_inside_window u env name data st next :
  eventsNextAllowedSendRegister st !! EventName_value name = Some next ->
  now env < next ->
  let c := event u env name data st in
  requests (state_at_return c) = requests st
  /\ eventsNextAllowedSendRegister (state_at_return c)
     = eventsNextAllowedSendRegister st
  /\ exists s, dispatch_of c = Returned s tt.
Proof.
  intros Hnext Hlt. cbv zeta.
  destruct (event_effect u env name data st)
    as [(entries & -> & Hd & _)|(pod & k & _ & _ & _ & Hfreq & _)].
  - auto.
  - rewrite sending_too_frequently_lookup, Hnext in Hfreq.
    apply Z.ltb_ge in Hfreq. lia.
Qed.

(* ===================================================================== *)
(** ** Veto atomicity *)

(** C10. A call stopped by the opt-out, by the override, by the rate limit
    or by an incomplete origin leaves the register exactly as it was, and
    leaves nothing behind that could change it later; so a call that changes
    the register has passed the opt-out, the override and the rate limit and
    has a complete origin.  An attempt with an incomplete origin does not
    consume a cooldown window.  The settlement of a request never touches
    the register either. *)
Theorem veto_leaves_register_unchanged u env name data st :
  let c := event u env name data st in
  (vetoed u env st name ->
   eventsNextAllowedSendRegister (state_at_return c)
   = eventsNextAllowedSendRegister st
   /\ exists s, dispatch_of c = Returned s tt)
  /\ (eventsNextAllowedSendRegister (state_at_return c)
      <> eventsNextAllowedSendRegister st ->
      reporting_allowed env = true
      /\ disabled_by_override u env = false
      /\ sending_too_frequently (now env)
           (eventsNextAllowedSendRegister st) name = false
      /\ origin_pod_of u (selfJID env) <> None)
  /\ (forall k s, dispatch_of c = Awaiting s k ->
      forall fo st',
        eventsNextAllowedSendRegister (state_of (k fo st'))
        = eventsNextAllowedSendRegister st').
Proof.
  cbv zeta.
  destruct (event_effect u env name data st)
    as [(entries & Hst & (s & Hd) & Hveto)
       |(pod & k & Hallowed & Hpod & Hover & Hfreq & Hst & Hd & Hk)];
    rewrite Hst, Hd; split; [|split| |split].
  - intros _. split; [reflexivity|]. eexists; reflexivity.
  - intros Hchanged. exfalso. apply Hchanged. reflexivity.
  - intros k s' Habs. discriminate.
  - intros [H|[H|[H|H]]]; congruence.
  - intros _. repeat split; congruence.
  - intros k' s' Heq fo st'. injection Heq as _ <-. rewrite Hk. reflexivity.
Qed.

Lemma veto_leaves_register_unchanged_witness :
  let env := MkEnvironment None None None "https://prose.org"
               (MkJID (Some "example.org") None "example.org") 5000 in
  let st := MkState (MkEventOriginApp "prose-app-web" "0.1.0" "web")
              (<["app:heartbeat" := 4000]> ∅) [] [] in
  vetoed Tracking env st AccountSignin
  /\ eventsNextAllowedSendRegister
       (state_at_return (event Tracking env AccountSignin None st))
     = <["app:heartbeat" := 4000]> ∅.
Proof.
  cbv zeta.
  assert (Hveto : vetoed Tracking
            (MkEnvironment None None None "https://prose.org"
               (MkJID (Some "example.org") None "example.org") 5000)
            (MkState (MkEventOriginApp "prose-app-web" "0.1.0" "web")
               (<["app:heartbeat" := 4000]> ∅) [] [])
            AccountSignin).
  { right. right. right. reflexivity. }
  split; [exact Hveto|].
  exact (proj1 (proj1 (veto_leaves_register_unchanged Tracking _ AccountSignin
                         None _) Hveto)).
Defined.

(* ===================================================================== *)
(** ** The anonymized origin *)

Lemma length_string_of_list_ascii (l : list ascii) :
  String.length (string_of_list_ascii l) = List.length l.
Proof. induction l as [|c l IH]; cbn; [reflexivity|]. rewrite IH. reflexivity. Qed.

Lemma length_toString (s : string) :
  String.length (Sha256.toString s) = 64%nat.
Proof.
  unfold Sha256.toString. rewrite length_string_of_list_ascii.
  unfold Sha256.hex_digest. rewrite !List.length_app. reflexivity.
Qed.

Lemma length_slice0 (n : nat) (s : string) :
  (n <= String.length s)%nat -> String.length (slice0 n s) = n.
Proof.
  unfold slice0. revert s.
  induction n as [|n IH]; intros s Hle.
  - destruct s; reflexivity.
  - destruct s as [|c s]; cbn in Hle; [lia|].
    cbn. rewrite IH by lia. reflexivity.
Qed.

Lemma length_short_hash (s : string) :
  String.length (slice0 ANONYMIZED_USER_IDENTIFIER_SHORT_LENGTH
                   (Sha256.toString s))
  = 16%nat.
Proof.
  apply length_slice0. rewrite length_toString.
  unfold ANONYMIZED_USER_IDENTIFIER_SHORT_LENGTH. lia.
Qed.

Lemma anonymizeUserIdentifier_nonempty (id : string) :
  id <> "" ->
  anonymizeUserIdentifier (Some id)
  = Some (slice0 ANONYMIZED_USER_IDENTIFIER_SHORT_LENGTH (Sha256.toString id)).
Proof.
  intros Hne. unfold anonymizeUserIdentifier.
  destruct id; [congruence|reflexivity].
Qed.

Lemma anonymizeUserIdentifier_empty (identifier : option string) :
  identifier = None \/ identifier = Some "" ->
  anonymizeUserIdentifier identifier = None.
Proof. intros [->| ->]; reflexivity. Qed.










(** Analytics hashes the whole JID string: the node plays no part in its
    user hash. *)
Lemma analytics_user_hash_ignores_node (jid : JID) domain :
  jid_domain jid = Some domain ->
  domain <> "" ->
  jid_toString jid <> "" ->
  origin_pod_of Analytics jid
  = Some (MkEventOriginPod
            (slice0 ANONYMIZED_USER_IDENTIFIER_SHORT_LENGTH
               (Sha256.toString domain))
            (Some (slice0 ANONYMIZED_USER_IDENTIFIER_SHORT_LENGTH
                     (Sha256.toString (jid_toString jid))))).
Proof.
  intros Hdomain Hd Hs. unfold origin_pod_of, userIdentifier.
  rewrite Hdomain, !anonymizeUserIdentifier_nonempty by assumption.
  reflexivity.
Qed.

(** C6, as stated, fails for analytics: for an identity without principal
    (no node in the JID) whose JID string is its domain, analytics hashes
    that string into a user hash, the origin is complete and a request is
    handed to [fetch]. *)
Lemma empty_principal_analytics_counterexample :
  ~ (forall u env,
        jid_node (selfJID env) = None \/ jid_node (selfJID env) = Some "" ->
        anonymizeUserIdentifier (userIdentifier u (selfJID env)) = None)
  /\ ~ (forall u env name data st,
          jid_node (selfJID env) = None \/ jid_node (selfJID env) = Some "" ->
          requests (state_at_return (event u env name data st))
          = requests st).
Proof.
  split; intros Hclaim.
  - specialize (Hclaim Analytics
      (MkEnvironment None None None "https://prose.org"
         (MkJID (Some "example.org") None "example.org") 1000)
      (or_introl eq_refl)).
    vm_compute in Hclaim. discriminate Hclaim.
  - specialize (Hclaim Analytics
      (MkEnvironment None None None "https://prose.org"
         (MkJID (Some "example.org") None "example.org") 1000)
      AccountSignin None
      (constructor (MkPackage "@prose-im/prose-app-web" "0.1.0") "web")
      (or_introl eq_refl)).
    vm_compute in Hclaim. discriminate Hclaim.
Qed.

(** C6, amended. For every identity whose user identifier, which is the
    principal ([selfJID.node]) for tracking and the whole JID string
    ([selfJID.toString()]) for analytics, is absent or empty, no user hash is
    produced, in particular not the hash of the empty string; the origin is
    then incomplete, and the call hands no request to [fetch] and leaves no
    dispatch awaiting one. *)
Theorem empty_principal_sends_nothing u env name data st :
  userIdentifier u (selfJID env) = None
  \/ userIdentifier u (selfJID env) = Some "" ->
  let c := event u env name data st in
  anonymizeUserIdentifier (userIdentifier u (selfJID env)) = None
  /\ anonymizeUserIdentifier (Some "")
     <> Some (slice0 ANONYMIZED_USER_IDENTIFIER_SHORT_LENGTH
                (Sha256.toString ""))
  /\ makeEventOrigin u env st = Thrown st (MkError "Incomplete origin data")
  /\ requests (state_at_return c) = requests st
  /\ (exists s, dispatch_of c = Returned s tt)
  /\ (reporting_allowed env = true ->
      dispatch_of c
      = Returned
          (add_log st
             [failure_entry u name (MkError "Incomplete origin data")]) tt).
Proof.
  intros Hempty. cbv zeta.
  pose proof (anonymizeUserIdentifier_empty _ Hempty) as Hnone.
  assert (Hpod : origin_pod_of u (selfJID env) = None).
  { unfold origin_pod_of. rewrite Hnone.
    destruct (anonymizeUserIdentifier (jid_domain (selfJID env))); reflexivity. }
  split; [exact Hnone|]. split; [discriminate|].
  split; [rewrite makeEventOrigin_eq, Hpod; reflexivity|].
  destruct (event_effect u env name data st)
    as [(entries & Hst & Hd & _)|(pod & k & _ & Hpod' & _)]; [|congruence].
  split; [rewrite Hst; reflexivity|]. split; [exact Hd|].
  intros Hallowed.
  destruct (event_dispatches u env name data st Hallowed) as [_ ->].
  apply dispatchEvent_incomplete_origin. exact Hpod.
Qed.

Lemma empty_principal_sends_nothing_witness :
  let env := MkEnvironment None None None "https://prose.org"
               (MkJID (Some "example.org") (Some "") "example.org") 1000 in
  let st := constructor (MkPackage "@prose-im/prose-app-web" "0.1.0") "web" in
  userIdentifier Tracking (selfJID env) = Some ""
  /\ requests (state_at_return (event Tracking env ProfileUpdate None st)) = [].
Proof.
  cbv zeta. split; [reflexivity|].
  exact (proj1 (proj2 (proj2 (proj2
    (empty_principal_sends_nothing Tracking
       (MkEnvironment None None None "https://prose.org"
          (MkJID (Some "example.org") (Some "") "example.org") 1000)
       ProfileUpdate None
       (constructor (MkPackage "@prose-im/prose-app-web" "0.1.0") "web")
       (or_intror eq_refl)))))).
Defined.

(* ===================================================================== *)
(** ** The detached dispatch *)




(* ===================================================================== *)
(** ** The reservation *)

(** C3, as stated, fails: a call that passes the opt-out, the override and
    the rate limit but has an incomplete origin (here no node in the JID)
    reserves nothing, since the origin is built first. *)
Lemma reservation_without_origin_counterexample :
  ~ (forall u env name data st,
        reporting_allowed env = true ->
        disabled_by_override u env = false ->
        sending_too_frequently (now env)
          (eventsNextAllowedSendRegister st) name = false ->
        eventsNextAllowedSendRegister
          (state_at_return (event u env name data st))
          !! EventName_value name
        = Some (now env + EVENT_NAME_NEXT_SEND_DELAY)).
Proof.
  intros Hclaim.
  specialize (Hclaim Tracking
    (MkEnvironment None None None "https://prose.org"
       (MkJID (Some "example.org") None "example.org") 1000)
    AppHeartbeat None
    (constructor (MkPackage "@prose-im/prose-app-web" "0.1.0") "web")
    eq_refl eq_refl eq_refl).
  vm_compute in Hclaim. discriminate Hclaim.
Qed.

(** C3, amended. For every call that passes the opt-out, the override and
    the rate limit and has a complete origin, the register holds
    [now + 3000] for the event name in the very state in which the request
    has been handed to [fetch], before any answer; no answer takes the
    reservation back, be it a network error or a non-success response; and
    after such a failure a call for the same name before [now + 3000] still
    hands nothing to [fetch]. *)
Theorem reservation_precedes_request_and_stays u env name data st pod :
  reporting_allowed env = true ->
  disabled_by_override u env = false ->
  sending_too_frequently (now env) (eventsNextAllowedSendRegister st) name
  = false ->
  origin_pod_of u (selfJID env) = Some pod ->
  let c := event u env name data st in
  let key := EventName_value name in
  let next := now env + EVENT_NAME_NEXT_SEND_DELAY in
  eventsNextAllowedSendRegister (state_at_return c)
  = <[key := next]> (eventsNextAllowedSendRegister st)
  /\ eventsNextAllowedSendRegister (state_at_return c) !! key = Some next
  /\ requests (state_at_return c)
     = (requests st ++ [make_request u env (payload_of st name data pod)])%list
  /\ (forall fo st',
         eventsNextAllowedSendRegister
           (state_of (deliver (dispatch_of c) fo st'))
         = eventsNextAllowedSendRegister st')
  /\ (forall fo env' data',
         now env' < next ->
         let failed := state_of (deliver (dispatch_of c) fo (state_at_return c)) in
         let c' := event u env' name data' failed in
         requests (state_at_return c') = requests failed
         /\ exists s, dispatch_of c' = Returned s tt).
Proof.
  intros Hallowed Hover Hfreq Hpod. cbv zeta.
  destruct (dispatchEvent_sends u env name data st pod Hpod Hover Hfreq)
    as (k & Hk & Hres).
  destruct (event_dispatches u env name data st Hallowed) as [Hst Hd].
  rewrite Hst, Hd, Hk. cbn [state_of deliver].
  split; [reflexivity|].
  split; [rewrite reserved_state_register; apply lookup_insert_eq|].
  split; [reflexivity|].
  split; [intros fo st'; rewrite Hres; reflexivity|].
  intros fo env' data' Hlt. rewrite Hres. cbn [state_of].
  destruct (event_inside_window u env' name data'
              (add_log (reserved_state u env name data pod st)
                 [settled_entry u name fo])
              (now env + EVENT_NAME_NEXT_SEND_DELAY))
    as (Hreq & _ & Hdone); [|exact Hlt|auto].
  apply lookup_insert_eq.
Qed.

Lemma reservation_precedes_request_and_stays_witness :
  let env := MkEnvironment None None None "https://prose.org"
               (MkJID (Some "example.org") (Some "alice") "alice@example.org")
               1000 in
  let st := constructor (MkPackage "@prose-im/prose-app-web" "0.1.0") "web" in
  eventsNextAllowedSendRegister
    (state_at_return (event Tracking env AppHeartbeat None st))
    !! "app:heartbeat"
  = Some 4000.
Proof.
  cbv zeta.
  exact (proj1 (proj2
    (reservation_precedes_request_and_stays Tracking
       (MkEnvironment None None None "https://prose.org"
          (MkJID (Some "example.org") (Some "alice") "alice@example.org") 1000)
       AppHeartbeat None
       (constructor (MkPackage "@prose-im/prose-app-web" "0.1.0") "web")
       (MkEventOriginPod "bfabc37432958b06" (Some "2bd806c97f0e00af"))
       eq_refl eq_refl eq_refl ltac:(vm_compute; reflexivity)))).
Defined.

(* ===================================================================== *)
(** ** Invariants of the event loop *)

Lemma quiet_pool_step u sys a : quiet_pool sys -> quiet_pool (step u sys a).
Proof.
  unfold quiet_pool. intros Hpool. destruct a as [env name data|i fo]; cbn [step].
  - cbn [inflight]. apply Forall_app. split; [exact Hpool|].
    destruct (event_effect u env name data (current sys))
      as [(entries & _ & (s & ->) & _)|(pod & k & _ & _ & _ & _ & _ & -> & Hk)];
      cbn [suspended]; [constructor|].
    repeat constructor. intros fo st. eexists. apply Hk.
  - destruct (inflight sys !! i) as [k|] eqn:Hi; [|exact Hpool].
    cbn [inflight]. apply Forall_app. split; [apply Forall_delete, Hpool|].
    destruct (Forall_lookup_1 _ _ _ _ Hpool Hi fo (current sys))
      as (entries & ->).
    constructor.
Qed.

Lemma quiet_pool_run u actions sys :
  quiet_pool sys -> quiet_pool (run u actions sys).
Proof.
  unfold run. revert sys.
  induction actions as [|a actions IH]; intros sys Hpool; cbn [fold_left].
  - exact Hpool.
  - apply IH, quiet_pool_step, Hpool.
Qed.

Lemma quiet_pool_boot pkg runtimePlatform : quiet_pool (boot pkg runtimePlatform).
Proof. constructor. Qed.

Lemma settle_only_logged u sys i fo :
  quiet_pool sys ->
  only_logged (current sys) (current (step u sys (Settle i fo))).
Proof.
  intros Hpool. cbn [step].
  destruct (inflight sys !! i) as [k|] eqn:Hi; [|apply only_logged_refl].
  destruct (Forall_lookup_1 _ _ _ _ Hpool Hi fo (current sys))
    as (entries & Hk).
  cbn [current]. rewrite Hk. apply only_logged_add_log.
Qed.

Lemma settlements_only_logged u l sys :
  quiet_pool sys ->
  only_logged (current sys) (current (run u (settlements l) sys)).
Proof.
  unfold run. revert sys.
  induction l as [|[i fo] l IH]; intros sys Hpool; cbn [settlements map fold_left].
  - apply only_logged_refl.
  - eapply only_logged_trans; [apply (settle_only_logged u sys i fo Hpool)|].
    apply IH, quiet_pool_step, Hpool.
Qed.

Lemma app_origin_is_only_logged app st st' :
  only_logged st st' -> app_origin_is app st -> app_origin_is app st'.
Proof.
  intros (Ha & _ & Hq & _) [Happ Hreq]. split; congruence.
Qed.

Lemma app_origin_is_step u app sys a :
  quiet_pool sys ->
  app_origin_is app (current sys) ->
  app_origin_is app (current (step u sys a)).
Proof.
  intros Hpool Hinv. destruct a as [env name data|i fo].
  - cbn [step current].
    destruct (event_effect u env name data (current sys))
      as [(entries & -> & _)|(pod & k & _ & _ & _ & _ & -> & _)].
    + eapply app_origin_is_only_logged; [apply only_logged_add_log|exact Hinv].
    + destruct Hinv as [Happ Hreq]. split; [exact Happ|].
      rewrite reserved_state_requests. apply Forall_app. split; [exact Hreq|].
      repeat constructor. exact Happ.
  - eapply app_origin_is_only_logged; [apply settle_only_logged, Hpool|exact Hinv].
Qed.

Lemma app_origin_is_run u app actions sys :
  quiet_pool sys ->
  app_origin_is app (current sys) ->
  app_origin_is app (current (run u actions sys)).
Proof.
  unfold run. revert sys.
  induction actions as [|a actions IH]; intros sys Hpool Hinv; cbn [fold_left].
  - exact Hinv.
  - apply IH; [apply quiet_pool_step, Hpool|apply app_origin_is_step; assumption].
Qed.

(* ===================================================================== *)
(** ** The app origin *)

(** C7. The app origin (name, version, platform) is computed by the
    constructor, from the package and the platform, and never again: after
    any calls of [event] and any settlements, in any order, the instance
    still holds that value, and every payload handed to [fetch] carries it. *)
Theorem app_origin_computed_once u pkg runtimePlatform actions :
  let sys := run u actions (boot pkg runtimePlatform) in
  eventOriginApp (constructor pkg runtimePlatform)
  = prepareEventOriginApp pkg runtimePlatform
  /\ eventOriginApp (current sys) = prepareEventOriginApp pkg runtimePlatform
  /\ Forall (fun request =>
               origin_app (payload_origin (req_body request))
               = prepareEventOriginApp pkg runtimePlatform)
            (requests (current sys)).
Proof.
  cbv zeta. split; [reflexivity|].
  apply (app_origin_is_run u (prepareEventOriginApp pkg runtimePlatform)).
  - apply quiet_pool_boot.
  - split; [reflexivity|constructor].
Qed.

(* ===================================================================== *)
(** ** The rate limit *)

Lemma payload_of_app st st' name data pod :
  eventOriginApp st' = eventOriginApp st ->
  payload_of st' name data pod = payload_of st name data pod.
Proof. unfold payload_of. intros ->. reflexivity. Qed.

(** C2. For every event name, when [event] is called twice and the second
    call comes strictly before the time the first one reserved (its own time
    plus 3000 ms), at most one request is handed to [fetch] by the two calls,
    whatever was in flight settles in between.  With the reservation of the
    first call in the register, the second call hands nothing to [fetch],
    leaves the register alone and awaits nothing; when it gets as far as
    the test of the rate limit, it fails with "Sending this event too
    frequently".  An entry that is not set never limits: the test is false
    for it at every time, so the first call for a name is never
    rate-limited; from time 0 on, the test is the comparison of the time
    with the entry, 0 standing for an entry that is not set. *)
Theorem second_call_in_window_is_vetoed
  u pkg runtimePlatform before env1 env2 name data1 data2 between :
  now env2 < now env1 + EVENT_NAME_NEXT_SEND_DELAY ->
  let sys0 := run u before (boot pkg runtimePlatform) in
  let sys1 := step u sys0 (Invoke env1 name data1) in
  let sys1' := run u (settlements between) sys1 in
  let sys2 := step u sys1' (Invoke env2 name data2) in
  (List.length (requests (current sys2))
   <= S (List.length (requests (current sys0))))%nat
  /\ (eventsNextAllowedSendRegister (current sys1) !! EventName_value name
      = Some (now env1 + EVENT_NAME_NEXT_SEND_DELAY) ->
      requests (current sys2) = requests (current sys1)
      /\ eventsNextAllowedSendRegister (current sys2)
         = eventsNextAllowedSendRegister (current sys1)
      /\ inflight sys2 = inflight sys1'
      /\ (reporting_allowed env2 = true ->
          origin_pod_of u (selfJID env2) <> None ->
          disabled_by_override u env2 = false ->
          last (log (current sys2))
          = Some (failure_entry u name
                    (MkError "Sending this event too frequently"))))
  /\ (forall t (register : gmap string Z),
         register !! EventName_value name = None ->
         sending_too_frequently t register name = false)
  /\ (forall t (register : gmap string Z),
         0 <= t ->
         sending_too_frequently t register name
         = (t <? default 0 (register !! EventName_value name))).
Proof.
  intros Hlt. cbv zeta.
  set (sys0 := run u before (boot pkg runtimePlatform)).
  set (sys1 := step u sys0 (Invoke env1 name data1)).
  set (sys1' := run u (settlements between) sys1).
  assert (Hpool0 : quiet_pool sys0) by apply quiet_pool_run, quiet_pool_boot.
  assert (Hpool1 : quiet_pool sys1) by apply quiet_pool_step, Hpool0.
  destruct (settlements_only_logged u between sys1 Hpool1)
    as (_ & Hreg & Hreq & _). fold sys1' in Hreg, Hreq.
  assert (Hwindow :
    eventsNextAllowedSendRegister (current sys1) !! EventName_value name
    = Some (now env1 + EVENT_NAME_NEXT_SEND_DELAY) ->
    requests (current (step u sys1' (Invoke env2 name data2)))
    = requests (current sys1)
    /\ eventsNextAllowedSendRegister
         (current (step u sys1' (Invoke env2 name data2)))
       = eventsNextAllowedSendRegister (current sys1)
    /\ inflight (step u sys1' (Invoke env2 name data2)) = inflight sys1').
  { intros Hnext. rewrite <- Hreg in Hnext.
    destruct (event_inside_window u env2 name data2 (current sys1') _
                Hnext Hlt) as (Hq & Hr & s & Hd).
    cbn [step current inflight]. rewrite Hq, Hr, Hd. cbn [suspended].
    rewrite app_nil_r. auto. }
  split; [|split; [|split]].
  - subst sys1. cbn [step current] in *.
    destruct (event_effect u env1 name data1 (current sys0))
      as [(entries & Hst & _)|(pod & k & _ & _ & _ & _ & Hst & _)].
    + destruct (event_effect u env2 name data2 (current sys1'))
        as [(entries' & Hst' & _)|(pod' & k' & _ & _ & _ & _ & Hst' & _)];
        rewrite Hst'.
      * cbn [add_log set_log requests]. rewrite Hreq, Hst.
        cbn [add_log set_log requests]. lia.
      * rewrite reserved_state_requests, List.length_app, Hreq, Hst.
        cbn [add_log set_log requests List.length]. lia.
    + destruct Hwindow as (Hq & _).
      * rewrite Hst, reserved_state_register. apply lookup_insert_eq.
      * cbn [step current] in Hq. rewrite Hq, Hst, reserved_state_requests.
        rewrite List.length_app. cbn [List.length]. lia.
  - intros Hnext. destruct (Hwindow Hnext) as (Hq & Hr & Hin).
    repeat split; try assumption.
    intros Hallowed Hpod Hover.
    destruct (origin_pod_of u (selfJID env2)) as [pod|] eqn:Hpod2;
      [|congruence].
    cbn [step current].
    destruct (event_dispatches u env2 name data2 (current sys1') Hallowed)
      as [-> _].
    rewrite (dispatchEvent_too_frequent u env2 name data2 _ pod Hpod2 Hover).
    + cbn [state_of]. apply last_log_add_log.
    + rewrite sending_too_frequently_lookup, Hreg, Hnext.
      apply Z.ltb_lt. exact Hlt.
  - intros t register Hnone.
    rewrite sending_too_frequently_lookup, Hnone. reflexivity.
  - intros t register Ht. rewrite sending_too_frequently_lookup.
    destruct (register !! EventName_value name); cbn [default]; [reflexivity|].
    symmetry. apply Z.ltb_ge. exact Ht.
Qed.

Lemma second_call_in_window_is_vetoed_witness :
  let jid := MkJID (Some "example.org") (Some "alice") "alice@example.org" in
  let env1 := MkEnvironment None None None "https://prose.org" jid 1000 in
  let env2 := MkEnvironment None None None "https://prose.org" jid 3999 in
  let sys0 := boot (MkPackage "@prose-im/prose-app-web" "0.1.0") "web" in
  let sys1 := step Tracking sys0 (Invoke env1 AppHeartbeat None) in
  let sys1' := run Tracking (settlements [(0%nat, Response false)]) sys1 in
  let sys2 := step Tracking sys1' (Invoke env2 AppHeartbeat None) in
  now env2 < now env1 + EVENT_NAME_NEXT_SEND_DELAY
  /\ (List.length (requests (current sys2)) <= 1)%nat.
Proof.
  cbv zeta. split; [reflexivity|].
  exact (proj1
    (second_call_in_window_is_vetoed Tracking
       (MkPackage "@prose-im/prose-app-web" "0.1.0") "web" []
       (MkEnvironment None None None "https://prose.org"
          (MkJID (Some "example.org") (Some "alice") "alice@example.org") 1000)
       (MkEnvironment None None None "https://prose.org"
          (MkJID (Some "example.org") (Some "alice") "alice@example.org") 3999)
       AppHeartbeat None None [(0%nat, Response false)] eq_refl)).
Defined.

(** C8. For every event name, a call that passes every gate, followed, once
    at least 3000 ms have gone by, by a second call for the same name that
    passes the opt-out and the override and has a complete origin, hands
    exactly two requests to [fetch], one per call, whatever was in flight
    settles in between. *)
Theorem two_calls_past_cooldown_send_two
  u pkg runtimePlatform before env1 env2 name data1 data2 between pod1 pod2 :
  let sys0 := run u before (boot pkg runtimePlatform) in
  let sys1 := step u sys0 (Invoke env1 name data1) in
  let sys1' := run u (settlements between) sys1 in
  let sys2 := step u sys1' (Invoke env2 name data2) in
  reporting_allowed env1 = true ->
  disabled_by_override u env1 = false ->
  origin_pod_of u (selfJID env1) = Some pod1 ->
  sending_too_frequently (now env1)
    (eventsNextAllowedSendRegister (current sys0)) name = false ->
  reporting_allowed env2 = true ->
  disabled_by_override u env2 = false ->
  origin_pod_of u (selfJID env2) = Some pod2 ->
  now env1 + EVENT_NAME_NEXT_SEND_DELAY <= now env2 ->
  requests (current sys2)
  = (requests (current sys0)
       ++ [make_request u env1 (payload_of (current sys0) name data1 pod1);
           make_request u env2 (payload_of (current sys0) name data2 pod2)])%list.
Proof.
  cbv zeta.
  set (sys0 := run u before (boot pkg runtimePlatform)).
  set (sys1 := step u sys0 (Invoke env1 name data1)).
  set (sys1' := run u (settlements between) sys1).
  intros Hallowed1 Hover1 Hpod1 Hfreq1 Hallowed2 Hover2 Hpod2 Hpast.
  assert (Hpool0 : quiet_pool sys0) by apply quiet_pool_run, quiet_pool_boot.
  assert (Hpool1 : quiet_pool sys1) by apply quiet_pool_step, Hpool0.
  destruct (settlements_only_logged u between sys1 Hpool1)
    as (Happ & Hreg & Hreq & _). fold sys1' in Happ, Hreg, Hreq.
  assert (Hst1 : current sys1
                 = reserved_state u env1 name data1 pod1 (current sys0)).
  { subst sys1. cbn [step current].
    destruct (event_dispatches u env1 name data1 (current sys0) Hallowed1)
      as [-> _].
    destruct (dispatchEvent_sends u env1 name data1 (current sys0) pod1
                Hpod1 Hover1 Hfreq1) as (k & -> & _).
    reflexivity. }
  assert (Hfreq2 : sending_too_frequently (now env2)
                     (eventsNextAllowedSendRegister (current sys1')) name
                   = false).
  { rewrite sending_too_frequently_lookup, Hreg, Hst1,
      reserved_state_register, lookup_insert_eq.
    apply Z.ltb_ge. exact Hpast. }
  cbn [step current].
  destruct (event_dispatches u env2 name data2 (current sys1') Hallowed2)
    as [-> _].
  destruct (dispatchEvent_sends u env2 name data2 (current sys1') pod2
              Hpod2 Hover2 Hfreq2) as (k & -> & _).
  cbn [state_of].
  rewrite reserved_state_requests, Hreq, Hst1, reserved_state_requests.
  rewrite (payload_of_app (current sys0) (current sys1')).
  - rewrite <- app_assoc. reflexivity.
  - rewrite Happ, Hst1. reflexivity.
Qed.

Lemma two_calls_past_cooldown_send_two_witness :
  let jid := MkJID (Some "example.org") (Some "alice") "alice@example.org" in
  let env1 := MkEnvironment None None None "https://prose.org" jid 1000 in
  let env2 := MkEnvironment None None None "https://prose.org" jid 4000 in
  let sys0 := boot (MkPackage "@prose-im/prose-app-web" "0.1.0") "web" in
  let sys1 := step Analytics sys0 (Invoke env1 ProfileUpdate None) in
  let sys1' := run Analytics (settlements [(0%nat, NetworkError (MkError "Failed to fetch"))]) sys1 in
  let sys2 := step Analytics sys1' (Invoke env2 ProfileUpdate None) in
  now env1 + EVENT_NAME_NEXT_SEND_DELAY <= now env2
  /\ List.length (requests (current sys2)) = 2%nat.
Proof.
  cbv zeta. split; [vm_compute; discriminate|].
  exact (f_equal (@List.length Request)
    (two_calls_past_cooldown_send_two Analytics
       (MkPackage "@prose-im/prose-app-web" "0.1.0") "web" []
       (MkEnvironment None None None "https://prose.org"
          (MkJID (Some "example.org") (Some "alice") "alice@example.org") 1000)
       (MkEnvironment None None None "https://prose.org"
          (MkJID (Some "example.org") (Some "alice") "alice@example.org") 4000)
       ProfileUpdate None None
       [(0%nat, NetworkError (MkError "Failed to fetch"))]
       (MkEventOriginPod "bfabc37432958b06" (Some "7a64adf28737ea90"))
       (MkEventOriginPod "bfabc37432958b06" (Some "7a64adf28737ea90"))
       eq_refl eq_refl ltac:(vm_compute; reflexivity) eq_refl
       eq_refl eq_refl ltac:(vm_compute; reflexivity)
       ltac:(vm_compute; discriminate))).
Defined.

(* ===================================================================== *)
(** ** More on the utilities *)

(** X1. When the override of a utility is set ([disableTracking] for
    tracking, [disableAnalytics] for analytics), [event] hands nothing to
    [fetch], whatever the privacy setting, the identity and the time: the
    requests and the register are as before and no dispatch is left
    awaiting. *)
Theorem override_never_invokes_transport u env name data st :
  disabled_by_override u env = true ->
  let c := event u env name data st in
  requests (state_at_return c) = requests st
  /\ eventsNextAllowedSendRegister (state_at_return c)
     = eventsNextAllowedSendRegister st
  /\ exists s, dispatch_of c = Returned s tt.
Proof.
  intros Hover. cbv zeta.
  destruct (event_effect u env name data st)
    as [(entries & -> & Hd & _)|(pod & k & _ & _ & Hno & _)].
  - auto.
  - congruence.
Qed.

Lemma override_never_invokes_transport_witness :
  let env := MkEnvironment None None (Some true) "https://prose.org"
               (MkJID (Some "example.org") (Some "alice") "alice@example.org")
               1000 in
  let st := constructor (MkPackage "@prose-im/prose-app-web" "0.1.0") "web" in
  disabled_by_override Analytics env = true
  /\ requests (state_at_return (event Analytics env AccountSignin None st))
     = [].
Proof.
  cbv zeta. split; [reflexivity|].
  exact (proj1
    (override_never_invokes_transport Analytics
       (MkEnvironment None None (Some true) "https://prose.org"
          (MkJID (Some "example.org") (Some "alice") "alice@example.org") 1000)
       AccountSignin None
       (constructor (MkPackage "@prose-im/prose-app-web" "0.1.0") "web")
       eq_refl)).
Defined.

Lemma requests_invariant u (P : Request -> Prop) :
  (forall env st name data pod,
      origin_pod_of u (selfJID env) = Some pod ->
      P (make_request u env (payload_of st name data pod))) ->
  forall actions sys,
    quiet_pool sys ->
    Forall P (requests (current sys)) ->
    Forall P (requests (current (run u actions sys))).
Proof.
  intros Hmake. unfold run.
  induction actions as [|a actions IH]; intros sys Hpool Hinv; cbn [fold_left].
  - exact Hinv.
  - apply IH; [apply quiet_pool_step, Hpool|].
    destruct a as [env name data|i fo].
    + cbn [step current].
      destruct (event_effect u env name data (current sys))
        as [(entries & -> & _)|(pod & k & _ & Hpod & _ & _ & -> & _)].
      * exact Hinv.
      * rewrite reserved_state_requests. apply Forall_app. split; [exact Hinv|].
        repeat constructor. apply Hmake, Hpod.
    + destruct (settle_only_logged u sys i fo Hpool) as (_ & _ & -> & _).
      exact Hinv.
Qed.

(** X2. Whatever calls of [event] are made and however the requests settle,
    every request handed to [fetch] is a POST to the endpoint of the utility
    under some base URL, with the JSON [Accept] and [Content-Type] headers,
    in [cors] mode and with [credentials: "omit"]. *)
Theorem every_request_keeps_wire_contract u pkg runtimePlatform actions :
  Forall (wire_contract u)
         (requests (current (run u actions (boot pkg runtimePlatform)))).
Proof.
  apply requests_invariant.
  - intros env st name data pod _. unfold wire_contract.
    repeat split. exists (url_proseWeb env). reflexivity.
  - apply quiet_pool_boot.
  - constructor.
Qed.

Lemma anonymizeUserIdentifier_Some identifier h :
  anonymizeUserIdentifier identifier = Some h ->
  exists id,
    identifier = Some id /\ id <> ""
    /\ h = slice0 ANONYMIZED_USER_IDENTIFIER_SHORT_LENGTH (Sha256.toString id).
Proof.
  unfold anonymizeUserIdentifier.
  destruct identifier as [id|]; [|discriminate].
  destruct id as [|c id]; cbn [nonempty]; [discriminate|].
  intros [= <-]. eexists. repeat split. discriminate.
Qed.

Lemma origin_pod_of_Some u jid pod :
  origin_pod_of u jid = Some pod ->
  exists domain user,
    jid_domain jid = Some domain /\ domain <> ""
    /\ userIdentifier u jid = Some user /\ user <> ""
    /\ pod = MkEventOriginPod
               (slice0 ANONYMIZED_USER_IDENTIFIER_SHORT_LENGTH
                  (Sha256.toString domain))
               (Some (slice0 ANONYMIZED_USER_IDENTIFIER_SHORT_LENGTH
                        (Sha256.toString user))).
Proof.
  unfold origin_pod_of.
  destruct (anonymizeUserIdentifier (jid_domain jid)) as [d|] eqn:Hd;
    [|discriminate].
  destruct (anonymizeUserIdentifier (userIdentifier u jid)) as [h|] eqn:Hh;
    [|discriminate].
  intros [= <-].
  destruct (anonymizeUserIdentifier_Some _ _ Hd) as (domain & -> & Hdne & ->).
  destruct (anonymizeUserIdentifier_Some _ _ Hh) as (user & Hu & Hune & ->).
  exists domain, user. auto.
Qed.

(** X3. Whatever calls of [event] are made and however the requests settle,
    every payload handed to [fetch] carries a domain hash and a user hash,
    each 16 characters long: no event leaves with a hash missing. *)
Theorem every_payload_is_anonymized u pkg runtimePlatform actions :
  Forall (fun r => anonymized (origin_pod (payload_origin (req_body r))))
         (requests (current (run u actions (boot pkg runtimePlatform)))).
Proof.
  apply requests_invariant.
  - intros env st name data pod Hpod.
    destruct (origin_pod_of_Some _ _ _ Hpod) as (domain & user & _ & _ & _ & _ & ->).
    cbn [make_request req_body payload_of payload_origin origin_pod].
    split; [apply length_short_hash|].
    eexists. split; [reflexivity|apply length_short_hash].
  - apply quiet_pool_boot.
  - constructor.
Qed.

Lemma EventName_value_inj name name' :
  EventName_value name = EventName_value name' -> name = name'.
Proof. destruct name, name'; cbn; intros H; try reflexivity; discriminate H. Qed.

Lemma event_register_other u env name data st key :
  key <> EventName_value name ->
  eventsNextAllowedSendRegister (state_at_return (event u env name data st))
    !! key
  = eventsNextAllowedSendRegister st !! key.
Proof.
  intros Hkey.
  destruct (event_effect u env name data st)
    as [(entries & -> & _)|(pod & k & _ & _ & _ & _ & -> & _)].
  - reflexivity.
  - rewrite reserved_state_register. apply lookup_insert_ne. congruence.
Qed.

(** X4. The rate limit is per event name: a call of [event] for one name,
    whatever becomes of it, leaves the register entry of every other name as
    it was, so the test of the rate limit for another name gives the same
    answer after the call as before, at every time. *)
Theorem rate_limit_is_per_event_name u env name data st name' :
  name' <> name ->
  let st' := state_at_return (event u env name data st) in
  eventsNextAllowedSendRegister st' !! EventName_value name'
  = eventsNextAllowedSendRegister st !! EventName_value name'
  /\ forall t,
      sending_too_frequently t (eventsNextAllowedSendRegister st') name'
      = sending_too_frequently t (eventsNextAllowedSendRegister st) name'.
Proof.
  intros Hne. cbv zeta.
  assert (Hkey : EventName_value name' <> EventName_value name)
    by (intros H; apply Hne, EventName_value_inj, H).
  pose proof (event_register_other u env name data st _ Hkey) as Hsame.
  split; [exact Hsame|].
  intros t. rewrite !sending_too_frequently_lookup, Hsame. reflexivity.
Qed.

Lemma rate_limit_is_per_event_name_witness :
  let env := MkEnvironment None None None "https://prose.org"
               (MkJID (Some "example.org") (Some "alice") "alice@example.org")
               1000 in
  let st := constructor (MkPackage "@prose-im/prose-app-web" "0.1.0") "web" in
  AccountSignin <> AppHeartbeat
  /\ sending_too_frequently 1001
       (eventsNextAllowedSendRegister
          (state_at_return (event Tracking env AppHeartbeat None st)))
       AccountSignin
     = false.
Proof.
  cbv zeta. split; [discriminate|].
  exact (proj2
    (rate_limit_is_per_event_name Tracking
       (MkEnvironment None None None "https://prose.org"
          (MkJID (Some "example.org") (Some "alice") "alice@example.org") 1000)
       AppHeartbeat None
       (constructor (MkPackage "@prose-im/prose-app-web" "0.1.0") "web")
       AccountSignin ltac:(discriminate)) 1001).
Defined.

Lemma register_le_refl r : register_le r r.
Proof. intros key v H. exists v. split; [exact H|lia]. Qed.

Lemma register_le_trans r1 r2 r3 :
  register_le r1 r2 -> register_le r2 r3 -> register_le r1 r3.
Proof.
  intros H12 H23 key v H1.
  destruct (H12 key v H1) as (v2 & H2 & Hle).
  destruct (H23 key v2 H2) as (v3 & H3 & Hle').
  exists v3. split; [exact H3|lia].
Qed.

Lemma register_le_step u sys a :
  quiet_pool sys ->
  register_le (eventsNextAllowedSendRegister (current sys))
              (eventsNextAllowedSendRegister (current (step u sys a))).
Proof.
  intros Hpool. destruct a as [env name data|i fo].
  - cbn [step current].
    destruct (event_effect u env name data (current sys))
      as [(entries & -> & _)|(pod & k & _ & _ & _ & Hfreq & -> & _)].
    + apply register_le_refl.
    + rewrite reserved_state_register. intros key v Hv.
      destruct (decide (key = EventName_value name)) as [->|Hne].
      * rewrite lookup_insert_eq. eexists. split; [reflexivity|].
        rewrite sending_too_frequently_lookup, Hv in Hfreq.
        apply Z.ltb_ge in Hfreq. unfold EVENT_NAME_NEXT_SEND_DELAY. lia.
      * rewrite lookup_insert_ne by congruence.
        exists v. split; [exact Hv|lia].
  - destruct (settle_only_logged u sys i fo Hpool) as (_ & -> & _).
    apply register_le_refl.
Qed.

(** X5. The register only moves forward: whatever calls of [event] are made
    and however the requests settle, an entry of the register is never
    removed and its time never decreases. *)
Theorem register_only_moves_forward u pkg runtimePlatform before actions :
  let sys := run u before (boot pkg runtimePlatform) in
  register_le (eventsNextAllowedSendRegister (current sys))
              (eventsNextAllowedSendRegister (current (run u actions sys))).
Proof.
  cbv zeta.
  assert (Hpool : quiet_pool (run u before (boot pkg runtimePlatform)))
    by apply quiet_pool_run, quiet_pool_boot.
  revert Hpool. generalize (run u before (boot pkg runtimePlatform)).
  unfold run.
  induction actions as [|a actions IH]; intros sys Hpool; cbn [fold_left].
  - apply register_le_refl.
  - eapply register_le_trans; [apply (register_le_step u sys a Hpool)|].
    apply IH, quiet_pool_step, Hpool.
Qed.

Lemma requests_for_snoc name rs r :
  requests_for name (rs ++ [r])%list
  = (requests_for name rs
     + if decide (payload_name (req_body r) = name) then 1 else 0)%nat.
Proof.
  unfold requests_for. rewrite filter_app, List.length_app. f_equal.
  destruct (decide (payload_name (req_body r) = name)) as [Heq|Hne].
  - rewrite filter_cons_True by exact Heq. reflexivity.
  - rewrite filter_cons_False by exact Hne. reflexivity.
Qed.

Lemma burst_step u sys a name t0 n0 :
  quiet_pool sys ->
  in_window name t0 a ->
  (requests_for name (requests (current sys)) = n0
   \/ (requests_for name (requests (current sys)) = S n0
       /\ exists v,
           eventsNextAllowedSendRegister (current sys) !! EventName_value name
           = Some v
           /\ t0 + EVENT_NAME_NEXT_SEND_DELAY <= v)) ->
  requests_for name (requests (current (step u sys a))) = n0
  \/ (requests_for name (requests (current (step u sys a))) = S n0
      /\ exists v,
          eventsNextAllowedSendRegister (current (step u sys a))
            !! EventName_value name
          = Some v
          /\ t0 + EVENT_NAME_NEXT_SEND_DELAY <= v).
Proof.
  intros Hpool Hwin Hinv. destruct a as [env name' data|i fo].
  - cbn [step current]. cbn [in_window] in Hwin.
    destruct (event_effect u env name' data (current sys))
      as [(entries & -> & _)|(pod & k & _ & _ & _ & Hfreq & -> & _)].
    + exact Hinv.
    + rewrite reserved_state_requests, reserved_state_register,
        requests_for_snoc.
      cbn [make_request req_body payload_of payload_name].
      destruct (decide (name' = name)) as [->|Hne].
      * specialize (Hwin eq_refl).
        rewrite lookup_insert_eq.
        destruct Hinv as [Hcount|(Hcount & v & Hv & Hle)].
        -- right. split; [lia|]. eexists. split; [reflexivity|lia].
        -- rewrite sending_too_frequently_lookup, Hv in Hfreq.
           apply Z.ltb_ge in Hfreq. lia.
      * rewrite Nat.add_0_r.
        rewrite lookup_insert_ne
          by (intros H; apply Hne, EventName_value_inj, H).
        exact Hinv.
  - destruct (settle_only_logged u sys i fo Hpool) as (_ & -> & -> & _).
    exact Hinv.
Qed.

Lemma burst_run u actions name t0 n0 :
  Forall (in_window name t0) actions ->
  forall sys,
    quiet_pool sys ->
    (requests_for name (requests (current sys)) = n0
     \/ (requests_for name (requests (current sys)) = S n0
         /\ exists v,
             eventsNextAllowedSendRegister (current sys) !! EventName_value name
             = Some v
             /\ t0 + EVENT_NAME_NEXT_SEND_DELAY <= v)) ->
    (requests_for name (requests (current (run u actions sys))) <= S n0)%nat.
Proof.
  unfold run.
  induction 1 as [|a actions Ha Hrest IH]; intros sys Hpool Hinv;
    cbn [fold_left].
  - destruct Hinv as [->|[-> _]]; lia.
  - apply IH; [apply quiet_pool_step, Hpool|].
    apply burst_step; assumption.
Qed.

(** X6. However many calls of [event] are made for one name at times that
    all lie within one window of 3000 ms, in any order, among calls for other
    names and settlements of requests, at most one request for that name is
    handed to [fetch]. *)
Theorem burst_sends_at_most_one
  u pkg runtimePlatform before actions name t0 :
  Forall (in_window name t0) actions ->
  let sys := run u before (boot pkg runtimePlatform) in
  (requests_for name (requests (current (run u actions sys)))
   <= S (requests_for name (requests (current sys))))%nat.
Proof.
  intros Hwin. cbv zeta.
  apply (burst_run u actions name t0 _ Hwin).
  - apply quiet_pool_run, quiet_pool_boot.
  - left. reflexivity.
Qed.

Lemma burst_sends_at_most_one_witness :
  let jid := MkJID (Some "example.org") (Some "alice") "alice@example.org" in
  let at_time := MkEnvironment None None None "https://prose.org" jid in
  let actions :=
    [Invoke (at_time 2500) AppHeartbeat None;
     Invoke (at_time 1000) AppHeartbeat None;
     Settle 0 (Response true);
     Invoke (at_time 1200) ProfileUpdate None;
     Invoke (at_time 3999) AppHeartbeat None] in
  let sys := boot (MkPackage "@prose-im/prose-app-web" "0.1.0") "web" in
  Forall (in_window AppHeartbeat 1000) actions
  /\ (requests_for AppHeartbeat (requests (current (run Tracking actions sys)))
      <= 1)%nat.
Proof.
  cbv zeta.
  assert (Hwin : Forall (in_window AppHeartbeat 1000)
    [Invoke (MkEnvironment None None None "https://prose.org"
               (MkJID (Some "example.org") (Some "alice") "alice@example.org")
               2500) AppHeartbeat None;
     Invoke (MkEnvironment None None None "https://prose.org"
               (MkJID (Some "example.org") (Some "alice") "alice@example.org")
               1000) AppHeartbeat None;
     Settle 0 (Response true);
     Invoke (MkEnvironment None None None "https://prose.org"
               (MkJID (Some "example.org") (Some "alice") "alice@example.org")
               1200) ProfileUpdate None;
     Invoke (MkEnvironment None None None "https://prose.org"
               (MkJID (Some "example.org") (Some "alice") "alice@example.org")
               3999) AppHeartbeat None]).
  { repeat constructor; cbn; intros; try discriminate;
      unfold EVENT_NAME_NEXT_SEND_DELAY; lia. }
  split; [exact Hwin|].
  exact (burst_sends_at_most_one Tracking
           (MkPackage "@prose-im/prose-app-web" "0.1.0") "web" [] _
           AppHeartbeat 1000 Hwin).
Defined.

Lemma split_without_separator sep s :
  has_char sep s = false -> split sep s = [s].
Proof.
  induction s as [|c s IH]; cbn [has_char split]; [reflexivity|].
  intros H. apply orb_false_iff in H as [Hc Hs].
  rewrite Hc, (IH Hs). reflexivity.
Qed.

Lemma split_at_first_separator sep a b :
  has_char sep a = false ->
  split sep (a ++ String sep b) = a :: split sep b.
Proof.
  induction a as [|c a IH]; simpl.
  - intros _. rewrite Ascii.eqb_refl. reflexivity.
  - intros H. apply orb_false_iff in H as [Hc Ha].
    rewrite Hc, (IH Ha). reflexivity.
Qed.

Lemma split_nonempty sep s : split sep s <> [].
Proof.
  destruct s as [|c s]; cbn [split]; [discriminate|].
  destruct (Ascii.eqb c sep); [discriminate|].
  destruct (split sep s); discriminate.
Qed.

(** X7. The app name comes from the package name: a name without a slash is
    taken whole; of a scoped name, [scope/project] or [scope/project/more],
    the project is taken, unless it is empty, in which case the whole name is
    taken.  So the app name is empty only if the package name is. *)
Theorem app_name_from_package_name pkg runtimePlatform :
  let app := prepareEventOriginApp pkg runtimePlatform in
  (has_char "/" (package_name pkg) = false -> app_name app = package_name pkg)
  /\ (forall scope project more,
         package_name pkg
         = scope ++ "/" ++ project
             ++ match more with Some m => "/" ++ m | None => "" end ->
         has_char "/" scope = false ->
         has_char "/" project = false ->
         app_name app
         = if nonempty project then project else package_name pkg)
  /\ (package_name pkg <> "" -> app_name app <> "").
Proof.
  cbv zeta. unfold prepareEventOriginApp. cbn [app_name].
  split; [|split].
  - intros Hno. rewrite (split_without_separator _ _ Hno). reflexivity.
  - intros scope project more -> Hscope Hproject.
    change ("/" ++ ?x) with (String "/" x).
    rewrite (split_at_first_separator _ _ _ Hscope).
    destruct more as [m|].
    + change ("/" ++ m) with (String "/" m).
      rewrite (split_at_first_separator _ _ _ Hproject). reflexivity.
    + replace (project ++ "") with project.
      * rewrite (split_without_separator _ _ Hproject). reflexivity.
      * clear. induction project as [|c p IH]; [reflexivity|].
        change (String c p = String c (p ++ "")). f_equal. exact IH.
  - intros Hname.
    destruct (nth_error (split "/" (package_name pkg)) 1) as [part|];
      [|exact Hname].
    destruct part as [|c part]; cbn [nonempty]; [exact Hname|discriminate].
Qed.

Lemma app_name_from_package_name_witness :
  app_name (prepareEventOriginApp
              (MkPackage "@prose-im/prose-app-web" "0.1.0") "web")
  = "prose-app-web".
Proof.
  exact (proj1 (proj2
    (app_name_from_package_name
       (MkPackage "@prose-im/prose-app-web" "0.1.0") "web"))
    "@prose-im" "prose-app-web" None eq_refl eq_refl eq_refl).
Defined.

(* ===================================================================== *)
(** ** The heartbeat of [AppBase] *)

Ltac app_simpl :=
  cbn [AppBase.component AppBase.timers AppBase.timeouts AppBase.intervals
       AppBase.heartbeatReportingTickTimeout
       AppBase.heartbeatReportingInterval AppBase.tracking
       AppBase.setWorkerTimeout AppBase.setWorkerInterval
       AppBase.clearWorkerTimeout AppBase.clearWorkerInterval] in *.

(** A map whose only possible key is removed is empty. *)
Lemma delete_only_key (m : gmap nat Z) (k : nat) :
  (forall j d, m !! j = Some d -> j = k) -> delete k m = ∅.
Proof.
  intros Honly. apply map_eq. intros j. rewrite lookup_empty.
  destruct (decide (j = k)) as [->|Hne].
  - apply lookup_delete_eq.
  - rewrite lookup_delete_ne by congruence.
    destruct (m !! j) as [d|] eqn:Hj; [|reflexivity].
    exfalso. apply Hne. eapply Honly, Hj.
Qed.

Lemma no_key_empty (m : gmap nat Z) :
  (forall j d, m !! j = Some d -> False) -> m = ∅.
Proof.
  intros Hno. apply map_eq. intros j. rewrite lookup_empty.
  destruct (m !! j) as [d|] eqn:Hj; [|reflexivity].
  exfalso. eapply Hno, Hj.
Qed.

Lemma tidy_tick initial id app :
  AppBase.tidy app ->
  AppBase.heartbeatReportingInterval (AppBase.component app) <> None ->
  AppBase.tidy (AppBase.tickHeartbeatReporting initial id app).
Proof.
  intros (Ht & Hi & Hset & Hnone) Hmounted.
  destruct app as [[tick interval] [touts ints] trk].
  unfold AppBase.tidy, AppBase.tickHeartbeatReporting. app_simpl.
  assert (Hcleared :
    AppBase.timeouts
      (match tick with
       | Some previous =>
           AppBase.clearWorkerTimeout previous (AppBase.MkTimers touts ints)
       | None => AppBase.MkTimers touts ints
       end) = ∅).
  { destruct tick as [previous|]; app_simpl.
    - apply delete_only_key. intros j d Hj.
      destruct (Ht _ _ Hj) as [[= ->] _]. reflexivity.
    - apply no_key_empty. intros j d Hj.
      destruct (Ht _ _ Hj) as [[=] _]. }
  assert (Hsame :
    AppBase.intervals
      (match tick with
       | Some previous =>
           AppBase.clearWorkerTimeout previous (AppBase.MkTimers touts ints)
       | None => AppBase.MkTimers touts ints
       end) = ints)
    by (destruct tick; reflexivity).
  rewrite Hcleared, Hsame.
  split; [|split; [|split]].
  - intros j delay Hl.
    apply lookup_insert_Some in Hl as [[<- <-]|[_ Hl]].
    + split; [reflexivity|]. destruct initial; auto.
    + rewrite lookup_empty in Hl. discriminate.
  - exact Hi.
  - exact Hset.
  - intros Hn. contradiction.
Qed.

Lemma tidy_happen app h :
  AppBase.tidy app -> AppBase.tidy (AppBase.happen app h).
Proof.
  intros Htidy. pose proof Htidy as (Ht & Hi & Hset & Hnone).
  destruct h as [tick_id interval_id| |id env|id tick_id|i fo];
    cbn [AppBase.happen].
  - (* mounted *)
    unfold AppBase.setupHeartbeatReporting.
    destruct (AppBase.heartbeatReportingInterval (AppBase.component app))
      as [iid|] eqn:Hint; [exact Htidy|].
    specialize (Hnone eq_refl).
    assert (Hints : AppBase.intervals (AppBase.timers app) = ∅).
    { apply no_key_empty. intros j d Hj.
      destruct (Hi _ _ Hj) as [[=] _]. }
    destruct app as [[tick interval] [touts ints] trk].
    unfold AppBase.tidy, AppBase.tickHeartbeatReporting. app_simpl.
    subst touts ints interval.
    assert (Hcleared :
      AppBase.timeouts
        (match tick with
         | Some previous =>
             AppBase.clearWorkerTimeout previous (AppBase.MkTimers ∅ ∅)
         | None => AppBase.MkTimers ∅ ∅
         end) = ∅)
      by (destruct tick; app_simpl; [apply delete_empty|reflexivity]).
    assert (Hsame :
      AppBase.intervals
        (match tick with
         | Some previous =>
             AppBase.clearWorkerTimeout previous (AppBase.MkTimers ∅ ∅)
         | None => AppBase.MkTimers ∅ ∅
         end) = ∅)
      by (destruct tick; reflexivity).
    rewrite Hcleared, Hsame.
    split; [|split; [|split]].
    + intros j delay Hl.
      apply lookup_insert_Some in Hl as [[<- <-]|[_ Hl]]; [auto|].
      rewrite lookup_empty in Hl. discriminate.
    + intros j delay Hl.
      apply lookup_insert_Some in Hl as [[<- <-]|[_ Hl]]; [auto|].
      rewrite lookup_empty in Hl. discriminate.
    + intros j [= <-]. apply lookup_insert_eq.
    + discriminate.
  - (* unmounted *)
    destruct app as [[tick interval] [touts ints] trk].
    unfold AppBase.tidy, AppBase.unsetupHeartbeatReporting. app_simpl.
    assert (Hints : forall iid, interval = Some iid -> delete iid ints = ∅).
    { intros iid ->. apply delete_only_key. intros j d Hj.
      destruct (Hi _ _ Hj) as [[= ->] _]. reflexivity. }
    assert (Hints' : interval = None -> ints = ∅).
    { intros ->. apply no_key_empty. intros j d Hj.
      destruct (Hi _ _ Hj) as [[=] _]. }
    assert (Htouts : forall tid, tick = Some tid -> delete tid touts = ∅).
    { intros tid ->. apply delete_only_key. intros j d Hj.
      destruct (Ht _ _ Hj) as [[= ->] _]. reflexivity. }
    assert (Htouts' : tick = None -> touts = ∅).
    { intros ->. apply no_key_empty. intros j d Hj.
      destruct (Ht _ _ Hj) as [[=] _]. }
    destruct interval as [iid|], tick as [tid|]; app_simpl;
      try rewrite (Hints _ eq_refl); try rewrite (Hints' eq_refl);
      try rewrite (Htouts _ eq_refl); try rewrite (Htouts' eq_refl);
      (split; [|split; [|split]]);
      try (intros j d Hl; rewrite lookup_empty in Hl; discriminate);
      try discriminate; try reflexivity.
  - (* a timeout goes off *)
    destruct (AppBase.timeouts (AppBase.timers app) !! id) as [d|] eqn:Hid;
      [|exact Htidy].
    unfold AppBase.tidy. app_simpl.
    split; [|split; [|split]]; auto.
    + intros j delay Hl. apply lookup_delete_Some in Hl as [_ Hl]. eauto.
    + intros Hn. rewrite (Hnone Hn). apply delete_empty.
  - (* an interval goes off *)
    destruct (AppBase.intervals (AppBase.timers app) !! id) as [d|] eqn:Hid;
      [|exact Htidy].
    apply tidy_tick; [exact Htidy|].
    destruct (Hi _ _ Hid) as [-> _]. discriminate.
  - (* a request settles *)
    exact Htidy.
Qed.

Lemma tidy_live happenings app :
  AppBase.tidy app -> AppBase.tidy (AppBase.live happenings app).
Proof.
  unfold AppBase.live. revert app.
  induction happenings as [|h happenings IH]; intros app Htidy; cbn [fold_left].
  - exact Htidy.
  - apply IH, tidy_happen, Htidy.
Qed.

Lemma tidy_created pkg runtimePlatform :
  AppBase.tidy (AppBase.created pkg runtimePlatform).
Proof.
  unfold AppBase.tidy, AppBase.created. app_simpl.
  repeat split; intros; try discriminate;
    exfalso; eapply lookup_empty_Some; eassumption.
Qed.

(** X8. Whatever happens to the component (mounting, unmounting, timers
    going off, in any order and with any identifiers), the only timers set
    are the ones it remembers: at most one timeout, set with the initial
    delay of 30 s or with no delay, and at most one interval, of one day,
    which stays set as long as the component remembers it. *)
Theorem heartbeat_timers_are_the_remembered_ones
  pkg runtimePlatform happenings :
  let app := AppBase.live happenings (AppBase.created pkg runtimePlatform) in
  (forall id delay,
      AppBase.timeouts (AppBase.timers app) !! id = Some delay ->
      AppBase.heartbeatReportingTickTimeout (AppBase.component app) = Some id
      /\ (delay = 30000 \/ delay = 0))
  /\ (forall id delay,
         AppBase.intervals (AppBase.timers app) !! id = Some delay ->
         AppBase.heartbeatReportingInterval (AppBase.component app) = Some id
         /\ delay = 86400000)
  /\ (forall id,
         AppBase.heartbeatReportingInterval (AppBase.component app) = Some id ->
         AppBase.intervals (AppBase.timers app) !! id = Some 86400000).
Proof.
  cbv zeta.
  destruct (tidy_live happenings _ (tidy_created pkg runtimePlatform))
    as (Ht & Hi & Hset & _).
  auto.
Qed.

Lemma tracking_quiet_happen app h :
  quiet_pool (AppBase.tracking app) ->
  quiet_pool (AppBase.tracking (AppBase.happen app h)).
Proof.
  intros Hpool.
  destruct h as [tick_id interval_id| |id env|id tick_id|i fo];
    cbn [AppBase.happen].
  - unfold AppBase.setupHeartbeatReporting.
    destruct (AppBase.heartbeatReportingInterval (AppBase.component app));
      exact Hpool.
  - unfold AppBase.unsetupHeartbeatReporting.
    destruct (AppBase.heartbeatReportingInterval (AppBase.component app));
      app_simpl;
      destruct (AppBase.heartbeatReportingTickTimeout (AppBase.component app));
      exact Hpool.
  - destruct (AppBase.timeouts (AppBase.timers app) !! id); [|exact Hpool].
    apply quiet_pool_step, Hpool.
  - destruct (AppBase.intervals (AppBase.timers app) !! id); exact Hpool.
  - apply quiet_pool_step, Hpool.
Qed.

Lemma tracking_quiet_live happenings app :
  quiet_pool (AppBase.tracking app) ->
  quiet_pool (AppBase.tracking (AppBase.live happenings app)).
Proof.
  unfold AppBase.live. revert app.
  induction happenings as [|h happenings IH]; intros app Hpool; cbn [fold_left].
  - exact Hpool.
  - apply IH, tracking_quiet_happen, Hpool.
Qed.

Lemma unmounted_is_idle app :
  AppBase.tidy app ->
  AppBase.timers (AppBase.happen app AppBase.Unmounted)
  = AppBase.MkTimers ∅ ∅
  /\ AppBase.component (AppBase.happen app AppBase.Unmounted)
     = AppBase.MkComponent None None.
Proof.
  intros Htidy.
  pose proof (tidy_happen app AppBase.Unmounted Htidy) as (Ht & Hi & _ & _).
  assert (Hcomp : AppBase.component (AppBase.happen app AppBase.Unmounted)
                  = AppBase.MkComponent None None).
  { cbn [AppBase.happen]. unfold AppBase.unsetupHeartbeatReporting.
    destruct app as [[[tid|] [iid|]] tm trk]; reflexivity. }
  split; [|exact Hcomp].
  rewrite Hcomp in Ht, Hi. app_simpl.
  destruct (AppBase.timers (AppBase.happen app AppBase.Unmounted))
    as [touts ints]. app_simpl.
  f_equal; apply no_key_empty; intros j d Hj.
  - destruct (Ht _ _ Hj) as [[=] _].
  - destruct (Hi _ _ Hj) as [[=] _].
Qed.

Lemma idle_stays_idle happenings app :
  forallb (fun h => negb (AppBase.is_mount h)) happenings = true ->
  quiet_pool (AppBase.tracking app) ->
  AppBase.timers app = AppBase.MkTimers ∅ ∅ ->
  AppBase.component app = AppBase.MkComponent None None ->
  let app' := AppBase.live happenings app in
  AppBase.timers app' = AppBase.MkTimers ∅ ∅
  /\ AppBase.component app' = AppBase.MkComponent None None
  /\ requests (current (AppBase.tracking app'))
     = requests (current (AppBase.tracking app))
  /\ eventsNextAllowedSendRegister (current (AppBase.tracking app'))
     = eventsNextAllowedSendRegister (current (AppBase.tracking app)).
Proof.
  cbv zeta. unfold AppBase.live. revert app.
  induction happenings as [|h happenings IH];
    intros app Hno Hpool Htimers Hcomp; cbn [fold_left].
  - auto.
  - cbn [forallb] in Hno. apply andb_true_iff in Hno as [Hh Hrest].
    assert (Hstep :
      AppBase.timers (AppBase.happen app h) = AppBase.MkTimers ∅ ∅
      /\ AppBase.component (AppBase.happen app h)
         = AppBase.MkComponent None None
      /\ requests (current (AppBase.tracking (AppBase.happen app h)))
         = requests (current (AppBase.tracking app))
      /\ eventsNextAllowedSendRegister
           (current (AppBase.tracking (AppBase.happen app h)))
         = eventsNextAllowedSendRegister (current (AppBase.tracking app))).
    { destruct h as [tick_id interval_id| |id env|id tick_id|i fo];
        cbn [AppBase.happen AppBase.is_mount negb] in *; try discriminate.
      - unfold AppBase.unsetupHeartbeatReporting. rewrite Hcomp. app_simpl.
        rewrite Hcomp. auto.
      - rewrite Htimers. app_simpl. rewrite lookup_empty. auto.
      - rewrite Htimers. app_simpl. rewrite lookup_empty. auto.
      - app_simpl.
        destruct (settle_only_logged Tracking (AppBase.tracking app) i fo Hpool)
          as (_ & Hr & Hq & _).
        auto. }
    destruct Hstep as (Ht' & Hc' & Hq' & Hr').
    destruct (IH (AppBase.happen app h) Hrest
                (tracking_quiet_happen app h Hpool) Ht' Hc')
      as (Ht'' & Hc'' & Hq'' & Hr'').
    repeat split; congruence.
Qed.

(** X9. Unmounting stops the heartbeat: after [unmounted()], whatever the
    component went through before, no timer is left set and the component
    remembers none; and as long as it is not mounted again, whatever timers
    are said to go off and whatever requests settle, tracking is handed no
    further event: its requests and its register stay as they were. *)
Theorem unmounting_stops_the_heartbeat
  pkg runtimePlatform before afterwards :
  forallb (fun h => negb (AppBase.is_mount h)) afterwards = true ->
  let app :=
    AppBase.live (before ++ [AppBase.Unmounted])%list
                 (AppBase.created pkg runtimePlatform) in
  let app' := AppBase.live afterwards app in
  AppBase.timers app = AppBase.MkTimers ∅ ∅
  /\ AppBase.component app = AppBase.MkComponent None None
  /\ AppBase.timers app' = AppBase.MkTimers ∅ ∅
  /\ requests (current (AppBase.tracking app'))
     = requests (current (AppBase.tracking app))
  /\ eventsNextAllowedSendRegister (current (AppBase.tracking app'))
     = eventsNextAllowedSendRegister (current (AppBase.tracking app)).
Proof.
  intros Hno. cbv zeta.
  replace (AppBase.live (before ++ [AppBase.Unmounted])%list
             (AppBase.created pkg runtimePlatform))
    with (AppBase.happen
            (AppBase.live before (AppBase.created pkg runtimePlatform))
            AppBase.Unmounted)
    by (unfold AppBase.live; rewrite fold_left_app; reflexivity).
  set (app0 := AppBase.live before (AppBase.created pkg runtimePlatform)).
  assert (Htidy : AppBase.tidy app0)
    by apply tidy_live, tidy_created.
  assert (Hpool : quiet_pool (AppBase.tracking app0))
    by apply tracking_quiet_live, quiet_pool_boot.
  destruct (unmounted_is_idle app0 Htidy) as [Ht Hc].
  destruct (idle_stays_idle afterwards _ Hno
              (tracking_quiet_happen app0 AppBase.Unmounted Hpool) Ht Hc)
    as (Ht' & _ & Hq & Hr).
  repeat split; assumption.
Qed.

Lemma unmounting_stops_the_heartbeat_witness :
  let env := MkEnvironment None None None "https://prose.org"
               (MkJID (Some "example.org") (Some "alice") "alice@example.org")
               40000 in
  let app :=
    AppBase.live [AppBase.Mounted 1 2; AppBase.Unmounted]
      (AppBase.created (MkPackage "@prose-im/prose-app-web" "0.1.0") "web") in
  requests (current (AppBase.tracking
     (AppBase.live [AppBase.TimeoutFires 1 env; AppBase.IntervalFires 2 3;
                    AppBase.TimeoutFires 3 env] app)))
  = requests (current (AppBase.tracking app)).
Proof.
  cbv zeta.
  exact (proj1 (proj2 (proj2 (proj2
    (unmounting_stops_the_heartbeat
       (MkPackage "@prose-im/prose-app-web" "0.1.0") "web"
       [AppBase.Mounted 1 2]
       [AppBase.TimeoutFires 1
          (MkEnvironment None None None "https://prose.org"
             (MkJID (Some "example.org") (Some "alice") "alice@example.org")
             40000);
        AppBase.IntervalFires 2 3;
        AppBase.TimeoutFires 3
          (MkEnvironment None None None "https://prose.org"
             (MkJID (Some "example.org") (Some "alice") "alice@example.org")
             40000)]
       eq_refl))))).
Defined.

(** X10. Mounting a component that remembers no interval sets exactly two
    timers, a timeout of 30 s for the first heartbeat and an interval of one
    day, and makes the component remember both; mounting a component that
    already remembers an interval changes nothing, so mounting twice is
    mounting once. *)
Theorem mounting_sets_up_once app tick_id interval_id tick_id' interval_id' :
  AppBase.tidy app ->
  let mounted := AppBase.happen app (AppBase.Mounted tick_id interval_id) in
  (AppBase.heartbeatReportingInterval (AppBase.component app) = None ->
   AppBase.timers mounted
   = AppBase.MkTimers {[ tick_id := 30000 ]} {[ interval_id := 86400000 ]}
   /\ AppBase.component mounted
      = AppBase.MkComponent (Some tick_id) (Some interval_id))
  /\ (AppBase.heartbeatReportingInterval (AppBase.component app) <> None ->
      mounted = app)
  /\ AppBase.happen mounted (AppBase.Mounted tick_id' interval_id') = mounted.
Proof.
  intros (Ht & Hi & _ & Hnone). cbv zeta.
  cbn [AppBase.happen]. unfold AppBase.setupHeartbeatReporting.
  destruct (AppBase.heartbeatReportingInterval (AppBase.component app))
    as [iid|] eqn:Hint.
  - split; [discriminate|]. split; [reflexivity|]. rewrite Hint. reflexivity.
  - specialize (Hnone eq_refl).
    assert (Hints : AppBase.intervals (AppBase.timers app) = ∅).
    { apply no_key_empty. intros j d Hj. destruct (Hi _ _ Hj) as [[=] _]. }
    split; [|split; [intros H; contradiction|reflexivity]].
    intros _. destruct app as [[tick interval] [touts ints] trk].
    unfold AppBase.tickHeartbeatReporting. app_simpl. subst touts ints.
    split; [|reflexivity].
    destruct tick as [previous|]; app_simpl;
      rewrite ?delete_empty; reflexivity.
Qed.

Lemma mounting_sets_up_once_witness :
  let app := AppBase.created (MkPackage "@prose-im/prose-app-web" "0.1.0")
               "web" in
  AppBase.tidy app
  /\ AppBase.happen (AppBase.happen app (AppBase.Mounted 1 2))
       (AppBase.Mounted 3 4)
     = AppBase.happen app (AppBase.Mounted 1 2).
Proof.
  cbv zeta. split; [apply tidy_created|].
  exact (proj2 (proj2
    (mounting_sets_up_once
       (AppBase.created (MkPackage "@prose-im/prose-app-web" "0.1.0") "web")
       1%nat 2%nat 3%nat 4%nat
       (tidy_created (MkPackage "@prose-im/prose-app-web" "0.1.0") "web")))).
Defined.

(** X11. Whatever happens to the component, every request tracking is handed
    on its behalf reports the event [app:heartbeat], without data. *)
Theorem heartbeat_reports_only_heartbeats pkg runtimePlatform happenings :
  Forall (fun r => payload_name (req_body r) = AppHeartbeat
                   /\ payload_data (req_body r) = None)
         (requests (current (AppBase.tracking
            (AppBase.live happenings
               (AppBase.created pkg runtimePlatform))))).
Proof.
  assert (Hstart :
    quiet_pool (AppBase.tracking (AppBase.created pkg runtimePlatform))
    /\ Forall (fun r => payload_name (req_body r) = AppHeartbeat
                        /\ payload_data (req_body r) = None)
         (requests (current (AppBase.tracking
                               (AppBase.created pkg runtimePlatform)))))
    by (split; [apply quiet_pool_boot|constructor]).
  revert Hstart. generalize (AppBase.created pkg runtimePlatform).
  unfold AppBase.live.
  induction happenings as [|h happenings IH]; intros app [Hpool Hinv];
    cbn [fold_left]; [exact Hinv|].
  apply IH. split; [apply tracking_quiet_happen, Hpool|].
  destruct h as [tick_id interval_id| |id env|id tick_id|i fo];
    cbn [AppBase.happen].
  - unfold AppBase.setupHeartbeatReporting.
    destruct (AppBase.heartbeatReportingInterval (AppBase.component app));
      exact Hinv.
  - unfold AppBase.unsetupHeartbeatReporting.
    destruct (AppBase.heartbeatReportingInterval (AppBase.component app));
      app_simpl;
      destruct (AppBase.heartbeatReportingTickTimeout (AppBase.component app));
      exact Hinv.
  - destruct (AppBase.timeouts (AppBase.timers app) !! id); [|exact Hinv].
    app_simpl. cbn [step current].
    destruct (event_effect Tracking env AppHeartbeat None
                (current (AppBase.tracking app)))
      as [(entries & -> & _)|(pod & k & _ & _ & _ & _ & -> & _)].
    + exact Hinv.
    + rewrite reserved_state_requests. apply Forall_app. split; [exact Hinv|].
      repeat constructor.
  - destruct (AppBase.intervals (AppBase.timers app) !! id); exact Hinv.
  - app_simpl.
    destruct (settle_only_logged Tracking (AppBase.tracking app) i fo Hpool)
      as (_ & _ & -> & _).
    exact Hinv.
Qed.

(* ===================================================================== *)
(** ** The activity store *)

Lemma activity_assert_own jid st entry :
  StoreActivity.entries st !! jid_toString jid = Some entry ->
  StoreActivity.assert jid st = (st, JsObject.Own entry).
Proof.
  intros Hown. unfold StoreActivity.assert, JsObject.has, JsObject.get.
  rewrite Hown. cbn [negb]. rewrite Hown. reflexivity.
Qed.

Lemma activity_assert_new jid st :
  StoreActivity.entries st !! jid_toString jid = None ->
  JsObject.inherited (jid_toString jid) = false ->
  StoreActivity.assert jid st
  = (StoreActivity.MkActivity
       (<[jid_toString jid := StoreActivity.MkActivityEntry None None]>
          (StoreActivity.entries st)),
     JsObject.Own (StoreActivity.MkActivityEntry None None)).
Proof.
  intros Hnone Hplain. unfold StoreActivity.assert, JsObject.has, JsObject.get.
  rewrite Hnone, Hplain. cbn [negb StoreActivity.entries].
  rewrite lookup_insert_eq. reflexivity.
Qed.

Lemma activity_assert_inherited jid st :
  StoreActivity.entries st !! jid_toString jid = None ->
  JsObject.inherited (jid_toString jid) = true ->
  StoreActivity.assert jid st = (st, JsObject.Inherited).
Proof.
  intros Hnone Hproto. unfold StoreActivity.assert, JsObject.has, JsObject.get.
  rewrite Hnone, Hproto. cbn [negb]. rewrite Hnone. reflexivity.
Qed.

(** X12. [assert] never overwrites: a JID that has an entry gets it back and
    the store is left as it is; a JID without one gets a new empty entry,
    unless its string names a member of [Object.prototype], which then comes
    back in place of an entry, the store left as it is.  Asserting twice is
    asserting once, and [getActivity] after [assert] changes nothing. *)
Theorem activity_assert_creates_once jid st :
  let key := jid_toString jid in
  let asserted := StoreActivity.assert jid st in
  (forall entry,
      StoreActivity.entries st !! key = Some entry ->
      asserted = (st, JsObject.Own entry))
  /\ (StoreActivity.entries st !! key = None ->
      JsObject.inherited key = false ->
      asserted
      = (StoreActivity.MkActivity
           (<[key := StoreActivity.MkActivityEntry None None]>
              (StoreActivity.entries st)),
         JsObject.Own (StoreActivity.MkActivityEntry None None)))
  /\ (StoreActivity.entries st !! key = None ->
      JsObject.inherited key = true ->
      asserted = (st, JsObject.Inherited))
  /\ StoreActivity.assert jid (fst asserted) = asserted
  /\ StoreActivity.getActivity jid (fst asserted) = asserted.
Proof.
  cbv zeta.
  assert (Hagain : StoreActivity.assert jid (fst (StoreActivity.assert jid st))
                   = StoreActivity.assert jid st).
  { destruct (StoreActivity.entries st !! jid_toString jid) as [entry|] eqn:Hl.
    - rewrite (activity_assert_own _ _ _ Hl). cbn [fst].
      apply activity_assert_own, Hl.
    - destruct (JsObject.inherited (jid_toString jid)) eqn:Hproto.
      + rewrite (activity_assert_inherited _ _ Hl Hproto). cbn [fst].
        apply activity_assert_inherited; assumption.
      + rewrite (activity_assert_new _ _ Hl Hproto). cbn [fst].
        apply activity_assert_own. cbn [StoreActivity.entries].
        apply lookup_insert_eq. }
  split; [|split; [|split; [|split]]].
  - intros entry Hl. apply activity_assert_own, Hl.
  - apply activity_assert_new.
  - apply activity_assert_inherited.
  - exact Hagain.
  - exact Hagain.
Qed.

(** X13. Setting then getting: after [setActivity(jid, status)] with a
    status, for a JID whose string names no member of [Object.prototype],
    [getActivity(jid)] gives the entry with the icon of the status, with its
    text when that is a non-empty string and no text otherwise, and with the
    identifier the entry had before, if any; getting does not change the
    store. *)
Theorem activity_set_then_get jid s st :
  JsObject.inherited (jid_toString jid) = false ->
  let set := StoreActivity.setActivity jid (Some s) st in
  let entry :=
    StoreActivity.MkActivityEntry
      (match StoreActivity.entries st !! jid_toString jid with
       | Some previous => StoreActivity.id previous
       | None => None
       end)
      (Some (StoreActivity.MkActivityEntryStatus
               (StoreActivity.status_icon s)
               (match StoreActivity.status_text s with
                | Some "" => None
                | other => other
                end))) in
  snd set = JsObject.Own entry
  /\ StoreActivity.getActivity jid (fst set) = (fst set, JsObject.Own entry).
Proof.
  intros Hplain. cbv zeta. unfold StoreActivity.setActivity.
  assert (Htext :
    match StoreActivity.status_text s with
    | Some t => if nonempty t then Some t else None
    | None => None
    end
    = match StoreActivity.status_text s with
      | Some "" => None
      | other => other
      end).
  { destruct (StoreActivity.status_text s) as [[|c t]|]; reflexivity. }
  destruct (StoreActivity.entries st !! jid_toString jid) as [previous|] eqn:Hl.
  - rewrite (activity_assert_own _ _ _ Hl), Htext. cbn [fst snd].
    split; [reflexivity|].
    apply activity_assert_own. cbn [StoreActivity.entries].
    apply lookup_insert_eq.
  - rewrite (activity_assert_new _ _ Hl Hplain), Htext.
    cbn [fst snd StoreActivity.id StoreActivity.entries].
    split; [reflexivity|].
    apply activity_assert_own. cbn [StoreActivity.entries].
    apply lookup_insert_eq.
Qed.

Lemma activity_set_then_get_witness :
  let jid := MkJID (Some "example.org") (Some "alice") "alice@example.org" in
  let st := StoreActivity.state in
  JsObject.inherited (jid_toString jid) = false
  /\ snd (StoreActivity.setActivity jid
            (Some (StoreActivity.MkUserStatus "rocket" (Some ""))) st)
     = JsObject.Own
         (StoreActivity.MkActivityEntry None
            (Some (StoreActivity.MkActivityEntryStatus "rocket" None))).
Proof.
  cbv zeta. split; [reflexivity|].
  exact (proj1
    (activity_set_then_get
       (MkJID (Some "example.org") (Some "alice") "alice@example.org")
       (StoreActivity.MkUserStatus "rocket" (Some ""))
       StoreActivity.state eq_refl)).
Defined.

(** X14. Clearing: [setActivity(jid)] without a status, for a JID whose
    string names no member of [Object.prototype], leaves the JID with an
    entry that has neither identifier nor status; the entry itself is not
    removed from the store. *)
Theorem activity_clear_keeps_empty_entry jid st :
  JsObject.inherited (jid_toString jid) = false ->
  let cleared := StoreActivity.setActivity jid None st in
  snd cleared = JsObject.Own (StoreActivity.MkActivityEntry None None)
  /\ StoreActivity.entries (fst cleared) !! jid_toString jid
     = Some (StoreActivity.MkActivityEntry None None)
  /\ JsObject.has (StoreActivity.entries (fst cleared)) (jid_toString jid)
     = true.
Proof.
  intros Hplain. cbv zeta. unfold StoreActivity.setActivity, JsObject.has.
  destruct (StoreActivity.entries st !! jid_toString jid) as [previous|] eqn:Hl.
  - rewrite (activity_assert_own _ _ _ Hl).
    cbn [fst snd StoreActivity.entries]. rewrite lookup_insert_eq. auto.
  - rewrite (activity_assert_new _ _ Hl Hplain).
    cbn [fst snd StoreActivity.entries]. rewrite lookup_insert_eq. auto.
Qed.

Lemma activity_clear_keeps_empty_entry_witness :
  let jid := MkJID (Some "example.org") (Some "alice") "alice@example.org" in
  let st :=
    fst (StoreActivity.setActivity jid
           (Some (StoreActivity.MkUserStatus "rocket" (Some "launching")))
           StoreActivity.state) in
  JsObject.inherited (jid_toString jid) = false
  /\ StoreActivity.entries (fst (StoreActivity.setActivity jid None st))
       !! jid_toString jid
     = Some (StoreActivity.MkActivityEntry None None).
Proof.
  cbv zeta. split; [reflexivity|].
  exact (proj1 (proj2
    (activity_clear_keeps_empty_entry
       (MkJID (Some "example.org") (Some "alice") "alice@example.org")
       (fst (StoreActivity.setActivity
               (MkJID (Some "example.org") (Some "alice") "alice@example.org")
               (Some (StoreActivity.MkUserStatus "rocket" (Some "launching")))
               StoreActivity.state))
       eq_refl))).
Defined.

(** X15. The actions of the store touch one entry: [assert], [getActivity]
    and [setActivity] for a JID leave the entry of every other JID string as
    it was, and they never give the store an entry of its own under a string
    that names a member of [Object.prototype]. *)
Theorem activity_actions_touch_one_entry jid new_status st other :
  let key := jid_toString jid in
  (other <> key ->
   StoreActivity.entries (fst (StoreActivity.assert jid st)) !! other
   = StoreActivity.entries st !! other
   /\ StoreActivity.entries (fst (StoreActivity.getActivity jid st)) !! other
      = StoreActivity.entries st !! other
   /\ StoreActivity.entries (fst (StoreActivity.setActivity jid new_status st))
        !! other
      = StoreActivity.entries st !! other)
  /\ (JsObject.inherited key = true ->
      StoreActivity.entries st !! key = None ->
      StoreActivity.entries (fst (StoreActivity.setActivity jid new_status st))
        !! key
      = None).
Proof.
  cbv zeta.
  assert (Hassert : other <> jid_toString jid ->
    StoreActivity.entries (fst (StoreActivity.assert jid st)) !! other
    = StoreActivity.entries st !! other).
  { intros Hne. unfold StoreActivity.assert. cbn [fst].
    destruct (negb (JsObject.has (StoreActivity.entries st) (jid_toString jid)));
      [|reflexivity].
    cbn [StoreActivity.entries]. apply lookup_insert_ne. congruence. }
  split.
  - intros Hne. split; [auto|]. split; [apply Hassert, Hne|].
    unfold StoreActivity.setActivity.
    specialize (Hassert Hne).
    destruct (StoreActivity.assert jid st) as [st' [entry| |]];
      cbn [fst] in *; try exact Hassert.
    cbn [StoreActivity.entries].
    rewrite lookup_insert_ne by congruence. exact Hassert.
  - intros Hproto Hnone. unfold StoreActivity.setActivity.
    rewrite (activity_assert_inherited _ _ Hnone Hproto). exact Hnone.
Qed.

(* ===================================================================== *)
(** ** The avatar store *)

Lemma avatar_marked_awaiting l key :
  StoreAvatar.sound l ->
  key ∈ StoreAvatar.awaiting l ->
  StoreAvatar.marked (StoreAvatar.store l) key = true.
Proof.
  intros (_ & Hmarks & _) Hin.
  unfold StoreAvatar.marked, JsObject.get. rewrite (Hmarks key Hin).
  reflexivity.
Qed.

Lemma avatar_unmarked l key :
  StoreAvatar.sound l ->
  StoreAvatar.marked (StoreAvatar.store l) key = false ->
  StoreAvatar.loading (StoreAvatar.store l) !! key = None
  /\ JsObject.inherited key = false.
Proof.
  intros (_ & _ & Htrue) Hmarked.
  unfold StoreAvatar.marked, JsObject.get in Hmarked.
  destruct (StoreAvatar.loading (StoreAvatar.store l) !! key) as [b|] eqn:Hl.
  - destruct (Htrue _ _ Hl) as [-> _]. discriminate.
  - split; [reflexivity|].
    destruct (JsObject.inherited key); [discriminate|reflexivity].
Qed.

Lemma not_in_delete_of_NoDup (l : list string) i key :
  NoDup l -> l !! i = Some key -> key ∉ delete i l.
Proof.
  intros Hnd Hi. rewrite delete_take_drop.
  rewrite <- (take_drop_middle l i key Hi) in Hnd.
  apply NoDup_app in Hnd as (_ & Hsep & Hrest).
  apply NoDup_cons in Hrest as [Hnotin _].
  apply not_elem_of_app. split; [|exact Hnotin].
  intros Hin. apply (Hsep key Hin). left.
Qed.

Lemma in_delete_in (l : list string) i key : key ∈ delete i l -> key ∈ l.
Proof.
  intros Hin. eapply elem_of_sublist; [exact Hin|apply sublist_delete].
Qed.

Lemma avatar_sound_act l a :
  StoreAvatar.sound l -> StoreAvatar.sound (StoreAvatar.act l a).
Proof.
  intros Hsound. pose proof Hsound as (Hnd & Hmarks & Htrue).
  destruct a as [jid|i answer]; cbn [StoreAvatar.act].
  - unfold StoreAvatar.load_begin.
    destruct (StoreAvatar.marked (StoreAvatar.store l) (jid_toString jid))
      eqn:Hmarked.
    + rewrite app_nil_r. destruct l. exact Hsound.
    + destruct (avatar_unmarked l _ Hsound Hmarked) as [Hnone Hplain].
      assert (Hfresh : jid_toString jid ∉ StoreAvatar.awaiting l).
      { intros Hin. rewrite (Hmarks _ Hin) in Hnone. discriminate. }
      split; [|split];
        cbn [StoreAvatar.awaiting StoreAvatar.store StoreAvatar.loading].
      * apply NoDup_app. split; [exact Hnd|]. split; [|apply NoDup_singleton].
        intros x Hx Hx'. apply list_elem_of_singleton in Hx'. subst x.
        contradiction.
      * intros key Hin. apply elem_of_app in Hin as [Hin|Hin].
        -- destruct (decide (key = jid_toString jid)) as [->|Hne].
           ++ apply lookup_insert_eq.
           ++ rewrite lookup_insert_ne by congruence. apply Hmarks, Hin.
        -- apply list_elem_of_singleton in Hin. subst key.
           apply lookup_insert_eq.
      * intros key b Hl.
        apply lookup_insert_Some in Hl as [[<- <-]|[_ Hl]]; [auto|].
        apply (Htrue _ _ Hl).
  - destruct (StoreAvatar.awaiting l !! i) as [key|] eqn:Hi; [|exact Hsound].
    pose proof (not_in_delete_of_NoDup _ _ _ Hnd Hi) as Hgone.
    split; [|split]; cbn [StoreAvatar.awaiting StoreAvatar.store].
    + exact (sublist_NoDup _ _ Hnd (sublist_delete _ _)).
    + intros k Hin.
      assert (Hne : key <> k) by (intros ->; contradiction).
      pose proof (Hmarks k (in_delete_in _ _ _ Hin)) as Hl.
      destruct answer as [e|[dataURL|]];
        cbn [StoreAvatar.load_resume fst StoreAvatar.loading];
        try rewrite lookup_delete_ne by exact Hne; exact Hl.
    + intros k b Hl. apply (Htrue k b).
      destruct answer as [e|[dataURL|]];
        cbn [StoreAvatar.load_resume fst StoreAvatar.loading] in Hl;
        try apply lookup_delete_Some in Hl as [_ Hl]; exact Hl.
Qed.

Lemma avatar_sound_perform acts l :
  StoreAvatar.sound l -> StoreAvatar.sound (StoreAvatar.perform acts l).
Proof.
  unfold StoreAvatar.perform. revert l.
  induction acts as [|a acts IH]; intros l Hsound; cbn [fold_left].
  - exact Hsound.
  - apply IH, avatar_sound_act, Hsound.
Qed.

Lemma avatar_sound_started : StoreAvatar.sound StoreAvatar.started.
Proof.
  split; [constructor|]. split.
  - intros key Hin. apply elem_of_nil in Hin. contradiction.
  - intros key b Hl. cbn in Hl. rewrite lookup_empty in Hl. discriminate.
Qed.

(** X16. At most one load per JID awaits the broker: whatever loads are
    started and however the broker answers, the loads awaiting an answer are
    for distinct JIDs, each marked as loading; and [load] for a JID that
    already awaits an answer changes nothing and asks the broker nothing. *)
Theorem avatar_one_load_per_jid acts :
  let l := StoreAvatar.perform acts StoreAvatar.started in
  NoDup (StoreAvatar.awaiting l)
  /\ (forall key,
         key ∈ StoreAvatar.awaiting l ->
         StoreAvatar.loading (StoreAvatar.store l) !! key = Some true)
  /\ (forall jid,
         jid_toString jid ∈ StoreAvatar.awaiting l ->
         StoreAvatar.act l (StoreAvatar.Load jid) = l).
Proof.
  cbv zeta.
  pose proof (avatar_sound_perform acts _ avatar_sound_started) as Hsound.
  pose proof Hsound as (Hnd & Hmarks & _).
  split; [exact Hnd|]. split; [exact Hmarks|].
  intros jid Hin. cbn [StoreAvatar.act]. unfold StoreAvatar.load_begin.
  rewrite (avatar_marked_awaiting _ _ Hsound Hin), app_nil_r.
  destruct (StoreAvatar.perform acts StoreAvatar.started). reflexivity.
Qed.

(** X17. When the broker answers a load, the marker of its JID is removed
    and the load no longer awaits; with a data URL, the entry of the JID
    becomes that URL and [avatar:changed] is emitted for it; without one,
    the entry of the JID is removed and [avatar:flushed] is emitted; the
    entries of the other JIDs are as before. *)
Theorem avatar_answer_completes_load acts i key dataURL :
  let l := StoreAvatar.perform acts StoreAvatar.started in
  StoreAvatar.awaiting l !! i = Some key ->
  let l' := StoreAvatar.act l
              (StoreAvatar.Answer i (StoreAvatar.LoadResolved dataURL)) in
  StoreAvatar.entries (StoreAvatar.store l') !! key = dataURL
  /\ StoreAvatar.marked (StoreAvatar.store l') key = false
  /\ (key ∉ StoreAvatar.awaiting l')
  /\ StoreAvatar.emitted (StoreAvatar.store l')
     = (StoreAvatar.emitted (StoreAvatar.store l)
          ++ [(match dataURL with
               | Some _ => "avatar:changed"
               | None => "avatar:flushed"
               end, key)])%list
  /\ (forall other,
         other <> key ->
         StoreAvatar.entries (StoreAvatar.store l') !! other
         = StoreAvatar.entries (StoreAvatar.store l) !! other).
Proof.
  cbv zeta. intros Hi.
  pose proof (avatar_sound_perform acts _ avatar_sound_started)
    as (Hnd & Hmarks & Htrue).
  destruct (Htrue _ _ (Hmarks key (list_elem_of_lookup_2 _ _ _ Hi)))
    as [_ Hplain].
  cbn [StoreAvatar.act]. rewrite Hi.
  cbn [StoreAvatar.store StoreAvatar.awaiting].
  split; [|split; [|split; [|split]]].
  - destruct dataURL; cbn [StoreAvatar.load_resume fst StoreAvatar.entries].
    + apply lookup_insert_eq.
    + apply lookup_delete_eq.
  - unfold StoreAvatar.marked, JsObject.get.
    destruct dataURL; cbn [StoreAvatar.load_resume fst StoreAvatar.loading];
      rewrite lookup_delete_eq, Hplain; reflexivity.
  - apply not_in_delete_of_NoDup; assumption.
  - destruct dataURL; reflexivity.
  - intros other Hne.
    destruct dataURL; cbn [StoreAvatar.load_resume fst StoreAvatar.entries].
    + apply lookup_insert_ne. congruence.
    + apply lookup_delete_ne. congruence.
Qed.

Lemma avatar_answer_completes_load_witness :
  let jid := MkJID (Some "example.org") (Some "alice") "alice@example.org" in
  let l := StoreAvatar.perform [StoreAvatar.Load jid] StoreAvatar.started in
  StoreAvatar.awaiting l !! 0%nat = Some "alice@example.org"
  /\ StoreAvatar.getAvatarDataUrl jid
       (StoreAvatar.store
          (StoreAvatar.act l
             (StoreAvatar.Answer 0
                (StoreAvatar.LoadResolved (Some "data:image/png;base64,AA")))))
     = JsObject.Own "data:image/png;base64,AA".
Proof.
  cbv zeta. split; [reflexivity|].
  unfold StoreAvatar.getAvatarDataUrl, StoreAvatar.assert, JsObject.get.
  cbn [jid_toString].
  rewrite (proj1
    (avatar_answer_completes_load
       [StoreAvatar.Load
          (MkJID (Some "example.org") (Some "alice") "alice@example.org")]
       0%nat "alice@example.org" (Some "data:image/png;base64,AA") eq_refl)).
  reflexivity.
Defined.

Lemma avatar_stuck_act key l a :
  StoreAvatar.sound l ->
  StoreAvatar.stuck key l ->
  StoreAvatar.stuck key (StoreAvatar.act l a)
  /\ StoreAvatar.asked key (StoreAvatar.store (StoreAvatar.act l a))
     = StoreAvatar.asked key (StoreAvatar.store l)
  /\ StoreAvatar.entries (StoreAvatar.store (StoreAvatar.act l a)) !! key
     = StoreAvatar.entries (StoreAvatar.store l) !! key.
Proof.
  intros Hsound [Hmark Hnot].
  destruct a as [jid|i answer]; cbn [StoreAvatar.act].
  - unfold StoreAvatar.load_begin.
    destruct (StoreAvatar.marked (StoreAvatar.store l) (jid_toString jid))
      eqn:Hmarked.
    + rewrite app_nil_r. cbn [StoreAvatar.store StoreAvatar.awaiting].
      repeat split; assumption.
    + assert (Hne : jid_toString jid <> key).
      { intros Heq. unfold StoreAvatar.marked, JsObject.get in Hmarked.
        rewrite Heq, Hmark in Hmarked. discriminate. }
      unfold StoreAvatar.stuck, StoreAvatar.asked.
      cbn [StoreAvatar.store StoreAvatar.awaiting StoreAvatar.loading
           StoreAvatar.broker_calls StoreAvatar.entries].
      split; [split|split].
      * rewrite lookup_insert_ne by exact Hne. exact Hmark.
      * apply not_elem_of_app. split; [exact Hnot|].
        intros Hin. apply list_elem_of_singleton in Hin. congruence.
      * rewrite filter_app, filter_cons_False by exact Hne.
        rewrite filter_nil, app_nil_r. reflexivity.
      * reflexivity.
  - destruct (StoreAvatar.awaiting l !! i) as [k|] eqn:Hi;
      [|repeat split; assumption].
    assert (Hne : k <> key).
    { intros ->. apply Hnot. eapply list_elem_of_lookup_2, Hi. }
    assert (Hne' : key <> k) by congruence.
    unfold StoreAvatar.stuck, StoreAvatar.asked.
    cbn [StoreAvatar.store StoreAvatar.awaiting].
    split; [split|split].
    + destruct answer as [e|[dataURL|]];
        cbn [StoreAvatar.load_resume fst StoreAvatar.loading];
        try rewrite lookup_delete_ne by exact Hne; exact Hmark.
    + intros Hin. apply Hnot, (in_delete_in _ _ _ Hin).
    + destruct answer as [e|[dataURL|]]; reflexivity.
    + destruct answer as [e|[dataURL|]];
        cbn [StoreAvatar.load_resume fst StoreAvatar.entries];
        [reflexivity| |].
      * apply lookup_insert_ne. exact Hne.
      * apply lookup_delete_ne. exact Hne.
Qed.

Lemma avatar_stuck_perform key acts l :
  StoreAvatar.sound l ->
  StoreAvatar.stuck key l ->
  StoreAvatar.asked key (StoreAvatar.store (StoreAvatar.perform acts l))
  = StoreAvatar.asked key (StoreAvatar.store l)
  /\ StoreAvatar.entries (StoreAvatar.store (StoreAvatar.perform acts l)) !! key
     = StoreAvatar.entries (StoreAvatar.store l) !! key.
Proof.
  unfold StoreAvatar.perform. revert l.
  induction acts as [|a acts IH]; intros l Hsound Hstuck; cbn [fold_left].
  - auto.
  - destruct (avatar_stuck_act key l a Hsound Hstuck) as (Hstuck' & Hasked & Hentry).
    destruct (IH _ (avatar_sound_act l a Hsound) Hstuck') as [Hasked' Hentry'].
    split; congruence.
Qed.

(** X18. A load the broker rejects leaves its JID marked as loading, since
    the marker is only removed after the answer: from then on, whatever loads
    are started and however the broker answers, the broker is never asked
    for that JID again and the entry of that JID never changes. *)
Theorem avatar_rejected_load_blocks_jid acts i key e later :
  let l := StoreAvatar.perform acts StoreAvatar.started in
  StoreAvatar.awaiting l !! i = Some key ->
  let l' := StoreAvatar.act l
              (StoreAvatar.Answer i (StoreAvatar.LoadRejected e)) in
  snd (StoreAvatar.load_resume key (StoreAvatar.LoadRejected e)
         (StoreAvatar.store l)) = inl e
  /\ StoreAvatar.marked (StoreAvatar.store l') key = true
  /\ StoreAvatar.asked key (StoreAvatar.store (StoreAvatar.perform later l'))
     = StoreAvatar.asked key (StoreAvatar.store l')
  /\ StoreAvatar.entries (StoreAvatar.store (StoreAvatar.perform later l'))
       !! key
     = StoreAvatar.entries (StoreAvatar.store l') !! key.
Proof.
  cbv zeta. intros Hi.
  pose proof (avatar_sound_perform acts _ avatar_sound_started) as Hsound.
  pose proof Hsound as (Hnd & Hmarks & _).
  pose proof (Hmarks key (list_elem_of_lookup_2 _ _ _ Hi)) as Hmark.
  assert (Hstuck : StoreAvatar.stuck key
            (StoreAvatar.act (StoreAvatar.perform acts StoreAvatar.started)
               (StoreAvatar.Answer i (StoreAvatar.LoadRejected e)))).
  { cbn [StoreAvatar.act]. rewrite Hi. split.
    - exact Hmark.
    - apply not_in_delete_of_NoDup; assumption. }
  split; [reflexivity|]. split.
  - destruct Hstuck as [Hm _]. unfold StoreAvatar.marked, JsObject.get.
    rewrite Hm. reflexivity.
  - apply avatar_stuck_perform; [apply avatar_sound_act, Hsound|exact Hstuck].
Qed.

Lemma avatar_rejected_load_blocks_jid_witness :
  let jid := MkJID (Some "example.org") (Some "alice") "alice@example.org" in
  let l := StoreAvatar.perform [StoreAvatar.Load jid] StoreAvatar.started in
  let l' := StoreAvatar.act l
              (StoreAvatar.Answer 0
                 (StoreAvatar.LoadRejected (MkError "timeout"))) in
  StoreAvatar.awaiting l !! 0%nat = Some "alice@example.org"
  /\ StoreAvatar.asked "alice@example.org"
       (StoreAvatar.store
          (StoreAvatar.perform [StoreAvatar.Load jid; StoreAvatar.Load jid] l'))
     = StoreAvatar.asked "alice@example.org" (StoreAvatar.store l').
Proof.
  cbv zeta. split; [reflexivity|].
  exact (proj1 (proj2 (proj2
    (avatar_rejected_load_blocks_jid
       [StoreAvatar.Load
          (MkJID (Some "example.org") (Some "alice") "alice@example.org")]
       0%nat "alice@example.org" (MkError "timeout")
       [StoreAvatar.Load
          (MkJID (Some "example.org") (Some "alice") "alice@example.org");
        StoreAvatar.Load
          (MkJID (Some "example.org") (Some "alice") "alice@example.org")]
       eq_refl)))).
Defined.

(* ===================================================================== *)
(** ** The room store *)

Lemma sort_insert_Permutation {A} (compare : A -> A -> Z) x l :
  StoreRoom.sort_insert compare x l ≡ₚ x :: l.
Proof.
  induction l as [|y l IH]; cbn [StoreRoom.sort_insert]; [reflexivity|].
  destruct (compare x y <=? 0); [reflexivity|].
  rewrite IH. apply Permutation_swap.
Qed.

Lemma sort_Permutation {A} (compare : A -> A -> Z) l :
  StoreRoom.sort compare l ≡ₚ l.
Proof.
  unfold StoreRoom.sort.
  induction l as [|x l IH]; cbn [foldr]; [reflexivity|].
  rewrite sort_insert_Permutation, IH. reflexivity.
Qed.

Lemma sort_insert_Sorted {A} (compare : A -> A -> Z) x l :
  (forall a b, 0 < compare a b -> compare b a <= 0) ->
  Sorted (fun a b => compare a b <= 0) l ->
  Sorted (fun a b => compare a b <= 0) (StoreRoom.sort_insert compare x l).
Proof.
  intros Htotal Hsorted.
  induction Hsorted as [|y l Hl IH Hhd]; cbn [StoreRoom.sort_insert].
  - repeat constructor.
  - destruct (compare x y <=? 0) eqn:Hxy.
    + apply Z.leb_le in Hxy. repeat constructor; assumption.
    + apply Z.leb_gt in Hxy. constructor; [exact IH|].
      destruct Hhd as [|z l' Hyz]; cbn [StoreRoom.sort_insert].
      * constructor. apply Htotal, Hxy.
      * destruct (compare x z <=? 0); constructor;
          [apply Htotal, Hxy|exact Hyz].
Qed.

Lemma sort_Sorted {A} (compare : A -> A -> Z) l :
  (forall a b, 0 < compare a b -> compare b a <= 0) ->
  Sorted (fun a b => compare a b <= 0) (StoreRoom.sort compare l).
Proof.
  intros Htotal. unfold StoreRoom.sort.
  induction l as [|x l IH]; cbn [foldr]; [constructor|].
  apply sort_insert_Sorted; assumption.
Qed.

Lemma collect_sections items c :
  let c' := fold_left StoreRoom.collect items c in
  StoreRoom.c_favorites c'
  = (StoreRoom.c_favorites c
       ++ filter (fun it => StoreRoom.item_section it = StoreRoom.Favorites)
            items)%list
  /\ StoreRoom.c_directMessages c'
     = (StoreRoom.c_directMessages c
          ++ filter (fun it => StoreRoom.item_section it
                               = StoreRoom.DirectMessage) items)%list
  /\ StoreRoom.c_channels c'
     = (StoreRoom.c_channels c
          ++ filter (fun it => StoreRoom.item_section it = StoreRoom.Channel)
               items)%list.
Proof.
  cbv zeta. revert c.
  induction items as [|it items IH]; intros c; cbn [fold_left].
  - rewrite !filter_nil, !app_nil_r. auto.
  - destruct (IH (StoreRoom.collect c it)) as (-> & -> & ->).
    unfold StoreRoom.collect.
    destruct (StoreRoom.item_section it) eqn:Hsec;
      cbn [StoreRoom.c_favorites StoreRoom.c_directMessages
           StoreRoom.c_channels];
      repeat (first [rewrite filter_cons_True by congruence
                    |rewrite filter_cons_False by congruence]);
      rewrite <- ?app_assoc; auto.
Qed.

(** X19. When the broker answers a load with the sidebar items, and the
    collation of the host is a consistent comparison (total and transitive),
    each of the three lists of the store holds exactly the items of its
    section, each as many times as the broker listed it, and every item in a
    list has a name that does not come after the name of any item further
    down. *)
Theorem room_load_sorts_each_section localeCompare items st :
  (forall a b, 0 < localeCompare a b -> localeCompare b a <= 0) ->
  (forall a b c,
      localeCompare a b <= 0 -> localeCompare b c <= 0 ->
      localeCompare a c <= 0) ->
  let st' := fst (StoreRoom.load_resume localeCompare
                    (StoreRoom.ListResolved items) st) in
  (StoreRoom.getItemFavorites st'
     ≡ₚ filter (fun it => StoreRoom.item_section it = StoreRoom.Favorites)
          items
   /\ StronglySorted (StoreRoom.in_order localeCompare)
                     (StoreRoom.getItemFavorites st'))
  /\ (StoreRoom.getItemDirectMessages st'
        ≡ₚ filter (fun it => StoreRoom.item_section it
                             = StoreRoom.DirectMessage) items
      /\ StronglySorted (StoreRoom.in_order localeCompare)
                        (StoreRoom.getItemDirectMessages st'))
  /\ (StoreRoom.getItemChannels st'
        ≡ₚ filter (fun it => StoreRoom.item_section it = StoreRoom.Channel)
             items
      /\ StronglySorted (StoreRoom.in_order localeCompare)
                        (StoreRoom.getItemChannels st')).
Proof.
  intros Htotal Htrans. cbv zeta.
  cbn [StoreRoom.load_resume fst StoreRoom.getItemFavorites
       StoreRoom.getItemDirectMessages StoreRoom.getItemChannels
       StoreRoom.favorites StoreRoom.directMessages StoreRoom.channels].
  destruct (collect_sections items (StoreRoom.MkCollected [] [] [] ∅ ∅))
    as (Hf & Hd & Hc).
  cbn [StoreRoom.c_favorites StoreRoom.c_directMessages StoreRoom.c_channels
       app] in Hf, Hd, Hc.
  rewrite Hf, Hd, Hc.
  assert (Hcmp : forall a b,
    0 < StoreRoom.compareRooms localeCompare a b ->
    StoreRoom.compareRooms localeCompare b a <= 0)
    by (intros a b; apply Htotal).
  assert (Hstrong : forall l,
    StronglySorted (StoreRoom.in_order localeCompare)
      (StoreRoom.sort (StoreRoom.compareRooms localeCompare) l)).
  { intros l. apply Sorted.Sorted_StronglySorted.
    - intros a b c. unfold StoreRoom.in_order, StoreRoom.compareRooms.
      apply Htrans.
    - apply (sort_Sorted (StoreRoom.compareRooms localeCompare)). exact Hcmp. }
  repeat split; try apply sort_Permutation; apply Hstrong.
Qed.

Lemma room_load_sorts_each_section_witness :
  let by_length := fun a b : string =>
    Z.of_nat (String.length a) - Z.of_nat (String.length b) in
  let general := StoreRoom.MkSidebarItem "general" StoreRoom.Channel
                   (StoreRoom.MkCoreRoom "general@groups.example.org"
                      "general") in
  let dev := StoreRoom.MkSidebarItem "dev" StoreRoom.Channel
               (StoreRoom.MkCoreRoom "dev@groups.example.org" "dev") in
  StronglySorted (StoreRoom.in_order by_length)
    (StoreRoom.getItemChannels
       (fst (StoreRoom.load_resume by_length
               (StoreRoom.ListResolved [general; dev]) StoreRoom.state))).
Proof.
  cbv zeta.
  exact (proj2 (proj2 (proj2
    (room_load_sorts_each_section
       (fun a b : string =>
          Z.of_nat (String.length a) - Z.of_nat (String.length b))
       [StoreRoom.MkSidebarItem "general" StoreRoom.Channel
          (StoreRoom.MkCoreRoom "general@groups.example.org" "general");
        StoreRoom.MkSidebarItem "dev" StoreRoom.Channel
          (StoreRoom.MkCoreRoom "dev@groups.example.org" "dev")]
       StoreRoom.state
       ltac:(intros a b; lia) ltac:(intros a b c; lia))))).
Defined.

Lemma collect_maps items c roomID :
  let c' := fold_left StoreRoom.collect items c in
  let found :=
    last (filter (fun it => StoreRoom.room_id (StoreRoom.item_room it)
                            = roomID) items) in
  StoreRoom.c_itemsByRoomId c' !! roomID
  = match found with
    | Some it => Some it
    | None => StoreRoom.c_itemsByRoomId c !! roomID
    end
  /\ StoreRoom.c_roomsById c' !! roomID
     = match found with
       | Some it => Some (StoreRoom.item_room it)
       | None => StoreRoom.c_roomsById c !! roomID
       end.
Proof.
  cbv zeta. revert c.
  induction items as [|it items IH]; intros c; cbn [fold_left].
  - rewrite filter_nil. cbn [last]. auto.
  - destruct (IH (StoreRoom.collect c it)) as [-> ->].
    assert (Hitems :
      StoreRoom.c_itemsByRoomId (StoreRoom.collect c it)
      = <[StoreRoom.room_id (StoreRoom.item_room it) := it]>
          (StoreRoom.c_itemsByRoomId c))
      by (unfold StoreRoom.collect;
          destruct (StoreRoom.item_section it); reflexivity).
    assert (Hrooms :
      StoreRoom.c_roomsById (StoreRoom.collect c it)
      = <[StoreRoom.room_id (StoreRoom.item_room it)
          := StoreRoom.item_room it]> (StoreRoom.c_roomsById c))
      by (unfold StoreRoom.collect;
          destruct (StoreRoom.item_section it); reflexivity).
    rewrite Hitems, Hrooms.
    destruct (decide (StoreRoom.room_id (StoreRoom.item_room it) = roomID))
      as [Heq|Hne].
    + rewrite filter_cons_True by exact Heq. rewrite last_cons.
      destruct (last (filter _ items)) as [later|]; [auto|].
      rewrite Heq, !lookup_insert_eq. auto.
    + rewrite filter_cons_False by exact Hne.
      destruct (last (filter _ items)) as [later|]; [auto|].
      rewrite !lookup_insert_ne by exact Hne. auto.
Qed.

(** X20. After the broker answers a load with the sidebar items,
    [getRoomItem] of a room identifier gives the last item listed for that
    room and [getRoom] gives the room of that item; for an identifier that
    no item listed carries both give nothing, whatever the store held
    before. *)
Theorem room_load_indexes_by_room_id localeCompare items st roomID :
  let st' := fst (StoreRoom.load_resume localeCompare
                    (StoreRoom.ListResolved items) st) in
  let found :=
    last (filter (fun it => StoreRoom.room_id (StoreRoom.item_room it)
                            = roomID) items) in
  StoreRoom.getRoomItem st' roomID = found
  /\ StoreRoom.getRoom st' roomID = StoreRoom.item_room <$> found.
Proof.
  cbv zeta. unfold StoreRoom.getRoomItem, StoreRoom.getRoom.
  cbn [StoreRoom.load_resume fst StoreRoom.byRoomId StoreRoom.byId].
  destruct (collect_maps items (StoreRoom.MkCollected [] [] [] ∅ ∅) roomID)
    as [-> ->].
  cbn [StoreRoom.c_itemsByRoomId StoreRoom.c_roomsById].
  rewrite !lookup_empty.
  destruct (last (filter _ items)); auto.
Qed.

Lemma room_loaded_stays localeCompare l a :
  StoreRoom.loaded (StoreRoom.store l) = true ->
  StoreRoom.loaded (StoreRoom.store (StoreRoom.act localeCompare l a)) = true
  /\ (StoreRoom.is_reload a = false ->
      StoreRoom.broker_calls (StoreRoom.store (StoreRoom.act localeCompare l a))
      = StoreRoom.broker_calls (StoreRoom.store l)).
Proof.
  intros Hloaded. destruct a as [reload|answer]; cbn [StoreRoom.act].
  - unfold StoreRoom.load_begin. rewrite Hloaded. cbn [negb orb].
    destruct reload; cbn [StoreRoom.store StoreRoom.loaded StoreRoom.is_reload];
      split; auto; discriminate.
  - destruct (StoreRoom.awaiting l); [auto|].
    destruct answer as [e|items];
      cbn [StoreRoom.load_resume fst StoreRoom.store StoreRoom.loaded
           StoreRoom.broker_calls]; auto.
Qed.

(** X21. The room list is loaded once: as soon as a first [load] has
    started, be it still awaiting the broker, answered or rejected, the
    store counts as loaded, and as long as no load asks for a reload,
    whatever loads are started and however the broker answers, the broker is
    not asked for the sidebar items again. *)
Theorem room_list_is_loaded_once localeCompare before reload later :
  forallb (fun a => negb (StoreRoom.is_reload a)) later = true ->
  let l := StoreRoom.act localeCompare
             (StoreRoom.perform localeCompare before StoreRoom.started)
             (StoreRoom.Load reload) in
  StoreRoom.loaded (StoreRoom.store l) = true
  /\ StoreRoom.broker_calls
       (StoreRoom.store (StoreRoom.perform localeCompare later l))
     = StoreRoom.broker_calls (StoreRoom.store l).
Proof.
  intros Hno. cbv zeta.
  set (l0 := StoreRoom.perform localeCompare before StoreRoom.started).
  assert (Hloaded :
    StoreRoom.loaded
      (StoreRoom.store (StoreRoom.act localeCompare l0 (StoreRoom.Load reload)))
    = true).
  { cbn [StoreRoom.act]. unfold StoreRoom.load_begin.
    destruct (StoreRoom.loaded (StoreRoom.store l0)) eqn:Hl; cbn [negb orb].
    - destruct reload; [reflexivity|exact Hl].
    - reflexivity. }
  split; [exact Hloaded|].
  revert Hloaded.
  generalize (StoreRoom.act localeCompare l0 (StoreRoom.Load reload)).
  unfold StoreRoom.perform. clear l0.
  induction later as [|a later IH]; intros l Hloaded; cbn [fold_left];
    [reflexivity|].
  cbn [forallb] in Hno. apply andb_true_iff in Hno as [Ha Hrest].
  apply negb_true_iff in Ha.
  destruct (room_loaded_stays localeCompare l a Hloaded) as [Hloaded' Hcalls].
  rewrite (IH Hrest _ Hloaded'). apply Hcalls, Ha.
Qed.

Lemma room_list_is_loaded_once_witness :
  let by_length := fun a b : string =>
    Z.of_nat (String.length a) - Z.of_nat (String.length b) in
  StoreRoom.broker_calls
    (StoreRoom.store
       (StoreRoom.perform by_length
          [StoreRoom.Load false;
           StoreRoom.Answer (StoreRoom.ListRejected (MkError "offline"));
           StoreRoom.Load false]
          (StoreRoom.act by_length
             (StoreRoom.perform by_length [] StoreRoom.started)
             (StoreRoom.Load false))))
  = 1%nat.
Proof.
  cbv zeta.
  exact (proj2
    (room_list_is_loaded_once
       (fun a b : string =>
          Z.of_nat (String.length a) - Z.of_nat (String.length b))
       [] false
       [StoreRoom.Load false;
        StoreRoom.Answer (StoreRoom.ListRejected (MkError "offline"));
        StoreRoom.Load false]
       eq_refl)).
Defined.
